(** * Tensor-parallel context of exllamav2 (exllamav2/tensor_p.py)

    A shallow embedding of [TPContext]: the partition planner
    ([define_split] with its local [set_split]), the device set
    ([all_devices]), the life cycle ([__init__], [finalize], [unload]) and the
    collective operations ([broadcast], [gather], [add_residual],
    [wait_streams]).

    Python integers are [Z]; device ids, which come from [enumerate], are
    [nat]; [None]-able attributes are [option]s; dictionaries are [gmap]s and
    the [set] of [all_devices] is a [gset].  Methods run in a small
    state-and-exception monad whose state holds the object ([self]) and the
    part of the outside world the methods touch. *)

From Stdlib Require Import ZArith Lia.
From stdpp Require Import base option list gmap sorting.

Local Open Scope Z_scope.

(** ** Exceptions and results *)

Inductive Exn :=
  | AssertionError
  | ValueError
  | TypeError
  | IndexError
  | KeyError
  | ZeroDivisionError
  | RuntimeError
  | NativeError (code : Z).

Inductive res (A : Type) :=
  | Ok (a : A)
  | Raise (e : Exn).
Arguments Ok {A} a.
Arguments Raise {A} e.

Global Instance res_ret : MRet res := λ A a, Ok a.
Global Instance res_bind : MBind res := λ A B f m,
  match m with Ok a => f a | Raise e => Raise e end.

(** Python's [sum] on a list of integers. *)
Fixpoint sum_Z (l : list Z) : Z :=
  match l with
  | [] => 0
  | x :: l' => x + sum_Z l'
  end.

(** ** exllamav2.util *)

Module util.

(** Modelled from the spec: the tie-break of [integer_split].  The position
    of the first largest element, scanning left to right and keeping the
    earliest on a tie, so that ties go to the lower device index. *)
Fixpoint first_largest_from (i best_i : nat) (best : Z) (l : list Z) : nat :=
  match l with
  | [] => best_i
  | y :: l' =>
      if decide (best < y) then first_largest_from (S i) i y l'
      else first_largest_from (S i) best_i best l'
  end.

Definition first_largest (l : list Z) : nat :=
  match l with
  | [] => 0%nat
  | x :: l' => first_largest_from 1 0 x l'
  end.

(** Modelled from the spec: the remainder rule of [integer_split].  Give one
    more unit, [n] times, to the device with the largest remainder that has
    not been served yet. *)
Fixpoint hand_out (n : nat) (portions remainders : list Z) : list Z :=
  match n with
  | O => portions
  | S n' =>
      let max_index := first_largest remainders in
      hand_out n' (alter Z.succ max_index portions) (<[max_index := 0]> remainders)
  end.

(** Modelled from the spec: [integer_split], which tensor_p.py imports from
    exllamav2.util; that module's source is missing.  The Partition Planner
    contract of the specification is a largest-remainder apportionment of
    [x] units over the weights [split], ties going to the lower device
    index: every device first gets the integer part of its quota
    [x * w / sum(split)], and the units left over go one each to the devices
    with the largest fractional parts.  Fractional parts are compared
    through their exact numerators [(x * w) mod sum(split)].  The weights,
    [float]s in the source, are exact integers here.  A weight vector whose
    total is not positive has no quota; the model raises on it. *)
Definition integer_split (x : Z) (split : list Z) : res (list Z) :=
  let sum_split := sum_Z split in
  if decide (sum_split ≤ 0) then Raise ZeroDivisionError
  else
    let portions := (λ p, (x * p) `div` sum_split) <$> split in
    let remaining := x - sum_Z portions in
    let remainders := (λ p, (x * p) `mod` sum_split) <$> split in
    Ok (hand_out (Z.to_nat remaining) portions remainders).

End util.

(** ** Data model *)

(** The fields of [model.config] that tensor_p.py reads. *)
Record Config := {
  supports_tp : bool;            (* cfg.arch.supports_tp *)
  num_key_value_heads : Z;
  num_key_value_groups : Z;
  intermediate_size : Z;
  vocab_size : Z;
  hidden_size : Z;
  max_input_len : Z;
  max_output_len : option Z;
}.

Inductive Device :=
  | Cpu
  | Cuda (index : nat)
  | Meta.

Global Instance Device_eq_dec : EqDecision Device.
Proof. solve_decision. Defined.

(** A tensor as far as this file looks at it: which storage it lives in
    (two tensors with the same [data_ptr] are the same memory), where, and
    its shape.  Contents are left to the native engine. *)
Record Tensor := {
  data_ptr : nat;
  tensor_device : Device;
  shape : list Z;
  is_pinned : bool;
}.

Global Instance Tensor_eq_dec : EqDecision Tensor.
Proof. solve_decision. Defined.

(** [tensor.device.index]: [None] unless the tensor is on a numbered device. *)
Definition device_index (t : Tensor) : option nat :=
  match tensor_device t with
  | Cuda i => Some i
  | _ => None
  end.

Definition numel (t : Tensor) : Z := foldr Z.mul 1 (shape t).

(** Modelled from the spec: [none_tensor] of exllamav2.ext, the shared
    sentinel "empty tensor" placeholder.  It is on no device and holds no
    element, so it is never equal to an allocated buffer. *)
Definition none_tensor : Tensor :=
  {| data_ptr := 0; tensor_device := Meta; shape := [0]; is_pinned := false |}.

Definition BROADCAST_KV : Z := 0.
Definition BROADCAST_ID : Z := 1.
Definition BROADCAST_VC : Z := 2.
Definition BROADCAST_RS : Z := 3.
Definition BROADCAST_Q : Z := 4.

(** [list[tuple[int, int, int]]]: (device, range start, range end). *)
Abbreviation SplitTable := (list (nat * Z * Z)).

(** The attributes of a [TPContext] object.  The [*_devices] attributes are
    set to [None] by [__init__] and never touched again; they are left out. *)
Record TPContext := {
  model_config : Config;         (* self.model.config *)
  kv_split : option SplitTable;
  id_split : option SplitTable;
  vc_split : option SplitTable;
  rs_split : option SplitTable;
  q_split : option SplitTable;
  pinned_temp : option Tensor;
  device_temp : option (list Tensor);
  device : option nat;
  streams : option (list Z);
  ext_tp_context : option nat;
}.

(** What the methods ask of, and do to, the world around the object. *)
Inductive Event :=
  | TorchEmpty (t : Tensor)
  | MakeTpContext (handle : nat) (kv id vc rs q : option SplitTable)
      (pinned : option Tensor) (dev_temp : option (list Tensor))
      (strms : option (list Z))
  | FreeTpContext (handle : nat)
  | TpBroadcast (ctx : option nat) (input : Tensor) (broadcast_type : Z)
      (bc_tensors : list Tensor) (dim : Z)
  | TpGather (ctx : option nat) (inputs : list Tensor) (broadcast_type : Z)
      (out : Tensor) (dim : Z)
  | SetStream (dev : nat)
  | AddInPlace (target source : Tensor) (lo hi : Z)
  | CopyInto (target source : Tensor)
  | StreamSynchronize (dev : nat)
  | CudaSynchronize.

Global Instance Event_eq_dec : EqDecision Event.
Proof. solve_decision. Defined.

Record World := {
  get_all_gpu_memory : gmap nat Z;   (* device -> v["free"] *)
  global_streams : gmap nat Z;       (* device -> .cuda_stream *)
  next_ptr : nat;                    (* storages below are taken *)
  next_context : nat;                (* native contexts made so far *)
  live_contexts : gset nat;          (* made and not freed *)
  ext_c_raises : Event → option Exn; (* what a native collective raises *)
  issued : list Event;               (* oldest first *)
}.

Record State := {
  self : TPContext;
  world : World;
}.

(** ** The monad of methods: state that survives an exception *)

Definition M (A : Type) : Type := State → res A * State.

Global Instance M_ret : MRet M := λ A a s, (Ok a, s).
Global Instance M_bind : MBind M := λ A B f m s,
  match m s with
  | (Ok a, s') => f a s'
  | (Raise e, s') => (Raise e, s')
  end.

Definition raise {A} (e : Exn) : M A := λ s, (Raise e, s).
Definition lift {A} (r : res A) : M A := λ s, (r, s).
Definition gets {A} (f : State → A) : M A := λ s, (Ok (f s), s).
Definition modify_self (f : TPContext → TPContext) : M unit :=
  λ s, (Ok tt, {| self := f (self s); world := world s |}).
Definition modify_world (f : World → World) : M unit :=
  λ s, (Ok tt, {| self := self s; world := f (world s) |}).

(** A list comprehension, or a [for] loop that appends, with effects. *)
Fixpoint for_each {A B} (f : A → M B) (l : list A) : M (list B) :=
  match l with
  | [] => mret []
  | x :: l' => y ← f x; ys ← for_each f l'; mret (y :: ys)
  end.

(** Iterating over, or subscripting, [None] is a [TypeError]. *)
Definition not_none {A} (o : option A) : res A :=
  match o with
  | Some a => Ok a
  | None => Raise TypeError
  end.

(** *** Attribute assignment *)

Definition set_splits (kv id vc rs q : SplitTable) (c : TPContext) : TPContext :=
  {| model_config := model_config c;
     kv_split := Some kv; id_split := Some id; vc_split := Some vc;
     rs_split := Some rs; q_split := Some q;
     pinned_temp := pinned_temp c; device_temp := device_temp c;
     device := device c; streams := streams c;
     ext_tp_context := ext_tp_context c |}.

Definition set_device (d : nat) (c : TPContext) : TPContext :=
  {| model_config := model_config c;
     kv_split := kv_split c; id_split := id_split c; vc_split := vc_split c;
     rs_split := rs_split c; q_split := q_split c;
     pinned_temp := pinned_temp c; device_temp := device_temp c;
     device := Some d; streams := streams c;
     ext_tp_context := ext_tp_context c |}.

Definition set_pinned_temp (t : Tensor) (c : TPContext) : TPContext :=
  {| model_config := model_config c;
     kv_split := kv_split c; id_split := id_split c; vc_split := vc_split c;
     rs_split := rs_split c; q_split := q_split c;
     pinned_temp := Some t; device_temp := device_temp c;
     device := device c; streams := streams c;
     ext_tp_context := ext_tp_context c |}.

Definition set_device_temp (ts : list Tensor) (c : TPContext) : TPContext :=
  {| model_config := model_config c;
     kv_split := kv_split c; id_split := id_split c; vc_split := vc_split c;
     rs_split := rs_split c; q_split := q_split c;
     pinned_temp := pinned_temp c; device_temp := Some ts;
     device := device c; streams := streams c;
     ext_tp_context := ext_tp_context c |}.

Definition set_streams (ss : list Z) (c : TPContext) : TPContext :=
  {| model_config := model_config c;
     kv_split := kv_split c; id_split := id_split c; vc_split := vc_split c;
     rs_split := rs_split c; q_split := q_split c;
     pinned_temp := pinned_temp c; device_temp := device_temp c;
     device := device c; streams := Some ss;
     ext_tp_context := ext_tp_context c |}.

Definition set_ext_tp_context (h : option nat) (c : TPContext) : TPContext :=
  {| model_config := model_config c;
     kv_split := kv_split c; id_split := id_split c; vc_split := vc_split c;
     rs_split := rs_split c; q_split := q_split c;
     pinned_temp := pinned_temp c; device_temp := device_temp c;
     device := device c; streams := streams c;
     ext_tp_context := h |}.

(** *** The world's side *)

Definition log (e : Event) (w : World) : World :=
  {| get_all_gpu_memory := get_all_gpu_memory w;
     global_streams := global_streams w;
     next_ptr := next_ptr w; next_context := next_context w;
     live_contexts := live_contexts w; ext_c_raises := ext_c_raises w;
     issued := issued w ++ [e] |}.

Definition take_ptr (w : World) : World :=
  {| get_all_gpu_memory := get_all_gpu_memory w;
     global_streams := global_streams w;
     next_ptr := S (next_ptr w); next_context := next_context w;
     live_contexts := live_contexts w; ext_c_raises := ext_c_raises w;
     issued := issued w |}.

Definition set_contexts (n : nat) (live : gset nat) (w : World) : World :=
  {| get_all_gpu_memory := get_all_gpu_memory w;
     global_streams := global_streams w;
     next_ptr := next_ptr w; next_context := n;
     live_contexts := live; ext_c_raises := ext_c_raises w;
     issued := issued w |}.

(** [torch.empty(shape, pin_memory = ...)] and [torch.empty_like(t, device = ...)]:
    a tensor in storage nobody else has.  Running out of memory is not
    modelled. *)
Definition torch_empty (shp : list Z) (dev : Device) (pin : bool) : M Tensor :=
  p ← gets (next_ptr ∘ world);
  let t := {| data_ptr := p; tensor_device := dev; shape := shp; is_pinned := pin |} in
  modify_world (log (TorchEmpty t) ∘ take_ptr);;
  mret t.

Definition torch_empty_like (t : Tensor) (dev : Device) : M Tensor :=
  torch_empty (shape t) dev false.

(** Modelled from the spec: [make_tp_context] and [free_tp_context] of the
    native extension ([ext_c]), whose source is missing.  Construction
    receives the five tables, the staging buffers and the stream handles and
    returns an opaque handle, one that no other context has; freeing gives
    it back.  Failures inside the native engine are not modelled for these
    two. *)
Definition make_tp_context : M nat :=
  c ← gets (self);
  w ← gets (world);
  let h := next_context w in
  modify_world (log (MakeTpContext h (kv_split c) (id_split c) (vc_split c)
                       (rs_split c) (q_split c) (pinned_temp c) (device_temp c)
                       (streams c))
                ∘ set_contexts (S h) ({[h]} ∪ live_contexts w));;
  mret h.

Definition free_tp_context (h : nat) : M unit :=
  modify_world (λ w, log (FreeTpContext h)
                       (set_contexts (next_context w) (live_contexts w ∖ {[h]}) w)).

(** A native collective ([ext_c.tp_broadcast], [ext_c.tp_gather]): issued,
    then whatever the engine makes of it.  What the engine raises, if
    anything, is a parameter of the world. *)
Definition ext_c_call (e : Event) : M unit :=
  modify_world (log e);;
  oracle ← gets (ext_c_raises ∘ world);
  match oracle e with
  | Some exn => raise exn
  | None => mret tt
  end.

(** ** Python and torch helpers *)

(** [max(l)] raises [ValueError] on an empty sequence. *)
Definition python_max (l : list nat) : res nat :=
  match l with
  | [] => Raise ValueError
  | x :: l' => Ok (foldl Nat.max x l')
  end.

(** [l[i]] for [i >= 0], and [l[-1]]. *)
Definition getitem {A} (l : list A) (i : nat) : res A :=
  match l !! i with
  | Some a => Ok a
  | None => Raise IndexError
  end.

Definition getitem_last {A} (l : list A) : res A :=
  match last l with
  | Some a => Ok a
  | None => Raise IndexError
  end.

(** [sorted(devs)] for a set of device ids. *)
Definition sorted (devs : gset nat) : list nat :=
  merge_sort (≤)%nat (elements devs).

(** [t[:n]] on the first dimension, with Python's clamping of the stop. *)
Definition slice_to (n : Z) (t : Tensor) : res Tensor :=
  match shape t with
  | [] => Raise IndexError
  | len :: rest =>
      let stop := if decide (n < 0) then Z.max (len + n) 0 else Z.min n len in
      Ok {| data_ptr := data_ptr t; tensor_device := tensor_device t;
            shape := stop :: rest; is_pinned := is_pinned t |}
  end.

(** [t.view(rows, cols)] shares the storage; the sizes must be plain
    non-negative sizes (an inferred [-1] is not modelled) of the same number
    of elements. *)
Definition view (rows cols : Z) (t : Tensor) : res Tensor :=
  if decide (0 ≤ rows ∧ 0 ≤ cols ∧ rows * cols = numel t) then
    Ok {| data_ptr := data_ptr t; tensor_device := tensor_device t;
          shape := [rows; cols]; is_pinned := is_pinned t |}
  else Raise RuntimeError.

(** A Python slice bound on a dimension of length [len]: counted from the
    end when negative, clamped to the dimension. *)
Definition slice_bound (len i : Z) : Z :=
  if decide (i < 0) then Z.max (i + len) 0 else Z.min i len.

(** [t[:, lo:hi]]: the tensor needs a second dimension, which is cut to the
    slice; the storage is shared. *)
Definition slice_columns (lo hi : Z) (t : Tensor) : res Tensor :=
  match shape t with
  | d0 :: d1 :: rest =>
      let width := Z.max (slice_bound d1 hi - slice_bound d1 lo) 0 in
      Ok {| data_ptr := data_ptr t; tensor_device := tensor_device t;
            shape := d0 :: width :: rest; is_pinned := is_pinned t |}
  | _ => Raise IndexError
  end.

(** Broadcasting into a fixed shape, both shapes read from the last
    dimension: the operand has no more dimensions than the target and each
    of its sizes is the target's or 1. *)
Fixpoint expands_to (other target : list Z) : bool :=
  match other, target with
  | [], _ => true
  | _ :: _, [] => false
  | x :: other', y :: target' =>
      (bool_decide (x = y) || bool_decide (x = 1)) && expands_to other' target'
  end.

(** [t.add_(other)] writes into [t]: the operand must be on the device of
    [t] and broadcast to the shape of [t]; anything else is a
    [RuntimeError].  Element types are not modelled. *)
Definition add_ (t other : Tensor) : res unit :=
  if decide (tensor_device t = tensor_device other) then
    if expands_to (reverse (shape other)) (reverse (shape t)) then Ok tt
    else Raise RuntimeError
  else Raise RuntimeError.

(** ** TPContext *)

(** The object [__init__] starts to fill in: every attribute [None].
    ([q_split] is not among the attributes [__init__] clears; it first
    exists when [define_split], which [__init__] always calls, sets it.) *)
Definition blank (cfg : Config) : TPContext :=
  {| model_config := cfg;
     kv_split := None; id_split := None; vc_split := None;
     rs_split := None; q_split := None;
     pinned_temp := None; device_temp := None;
     device := None; streams := None; ext_tp_context := None |}.

Definition unload : M unit :=
  h ← gets (ext_tp_context ∘ self);
  match h with
  | Some h =>
      free_tp_context h;;
      modify_self (set_ext_tp_context None)
  | None => mret tt
  end.

Definition devices_of (split : SplitTable) : list nat :=
  (λ '(d, _, _), d) <$> split.

Definition all_devices (c : TPContext) : res (list nat) :=
  kv ← not_none (kv_split c);
  let devs : gset nat := list_to_set (devices_of kv) in
  id ← not_none (id_split c);
  let devs := devs ∪ list_to_set (devices_of id) in
  vc ← not_none (vc_split c);
  let devs := devs ∪ list_to_set (devices_of vc) in
  Ok (sorted devs).

(** The local function [set_split] of [define_split]: the loop over
    [enumerate(raw_split)] carries [b] and the table built so far. *)
Definition set_split_body (st : Z * SplitTable) (ds : nat * Z) : Z * SplitTable :=
  let '(b, split) := st in
  let '(d, s) := ds in
  let a := b in
  let b := a + s in
  (b, if decide (s ≠ 0) then split ++ [(d, a, b)] else split).

Definition set_split (raw_split : list Z) : SplitTable :=
  (foldl set_split_body (0, []) (imap pair raw_split)).2.

(** The default weights: free memory per device, [0] for an id the
    inventory does not list. *)
Definition free_memory_split (gpu_memory : gmap nat Z) : res (list Z) :=
  m ← python_max (map_to_list gpu_memory).*1;
  Ok (foldl (λ gpu_split '(k, v), <[k := v]> gpu_split)
            (replicate (m + 1) 0) (map_to_list gpu_memory)).

Definition define_split (gpu_split : option (list Z)) : M unit :=
  cfg ← gets (model_config ∘ self);
  gpu_split ← match gpu_split with
              | Some g => mret g
              | None =>
                  gpu_memory ← gets (get_all_gpu_memory ∘ world);
                  lift (free_memory_split gpu_memory)
              end;
  kv_split ← lift (util.integer_split (num_key_value_heads cfg) gpu_split);
  let q_split := (λ s, s * num_key_value_groups cfg) <$> kv_split in
  id_units ← lift (util.integer_split (intermediate_size cfg `div` 128) gpu_split);
  let id_split := (λ s, s * 128) <$> id_units in
  vc_units ← lift (util.integer_split (vocab_size cfg `div` 32) gpu_split);
  let vc_split := (λ s, s * 32) <$> vc_units in
  rs_units ← lift (util.integer_split (hidden_size cfg `div` 32) gpu_split);
  let rs_split := (λ s, s * 32) <$> rs_units in
  modify_self (set_splits (set_split kv_split) (set_split id_split)
                 (set_split vc_split) (set_split rs_split) (set_split q_split));;
  c ← gets self;
  devs ← lift (all_devices c);
  d ← lift (getitem devs 0);
  modify_self (set_device d).

Definition __init__ (cfg : Config) (gpu_split : option (list Z)) : M unit :=
  if negb (supports_tp cfg) then raise AssertionError
  else if negb (bool_decide (intermediate_size cfg `mod` 128 = 0))
  then raise AssertionError
  else
    modify_self (λ _, blank cfg);;
    define_split gpu_split.

Definition finalize : M unit :=
  cfg ← gets (model_config ∘ self);
  let size := match max_output_len cfg with
              | Some n => n
              | None => max_input_len cfg
              end * vocab_size cfg in
  let size := Z.max size (max_input_len cfg * intermediate_size cfg) in
  pinned ← torch_empty [size] Cpu true;
  modify_self (set_pinned_temp pinned);;
  c ← gets self;
  devices ← lift (all_devices c);
  max_device ← lift (python_max devices);
  dev_temp ← for_each (λ idx : nat,
                if decide (idx ∈ devices) then torch_empty_like pinned (Cuda idx)
                else mret none_tensor)
              (seq 0 (max_device + 1));
  modify_self (set_device_temp dev_temp);;
  c ← gets self;
  devices ← lift (all_devices c);
  registry ← gets (global_streams ∘ world);
  strms ← for_each (λ idx : nat,
             match registry !! idx with
             | Some s => mret s
             | None => raise KeyError
             end) devices;
  modify_self (set_streams strms);;
  h ← make_tp_context;
  modify_self (set_ext_tp_context (Some h)).

Definition get_split (broadcast_type : Z) : M (option SplitTable) :=
  c ← gets self;
  if decide (broadcast_type = BROADCAST_KV) then mret (kv_split c)
  else if decide (broadcast_type = BROADCAST_ID) then mret (id_split c)
  else if decide (broadcast_type = BROADCAST_VC) then mret (vc_split c)
  else if decide (broadcast_type = BROADCAST_RS) then mret (rs_split c)
  else if decide (broadcast_type = BROADCAST_Q) then mret (q_split c)
  else raise ValueError.

Definition broadcast (input_tensor : Tensor) (broadcast_type : Z) (dim : Z)
    : M (list Tensor) :=
  split ← get_split broadcast_type;
  split ← lift (not_none split);
  bc_tensors ← for_each (λ '(idx, _, _),
                  if decide (device_index input_tensor = Some idx)
                  then mret input_tensor
                  else torch_empty_like input_tensor (Cuda idx))
               split;
  h ← gets (ext_tp_context ∘ self);
  ext_c_call (TpBroadcast h input_tensor broadcast_type bc_tensors dim);;
  mret bc_tensors.

Definition gather (inputs : list Tensor) (broadcast_type : Z) (dim : Z)
    : M Tensor :=
  split ← get_split broadcast_type;
  h ← gets (ext_tp_context ∘ self);
  ext_c_call (TpGather h inputs broadcast_type none_tensor dim);;
  split ← lift (not_none split);
  '(_, _, total) ← lift (getitem_last split);
  first ← lift (getitem inputs 0);
  rows ← lift (getitem (shape first) 0);
  pinned ← gets (pinned_temp ∘ self);
  pinned ← lift (not_none pinned);
  pt ← lift (slice_to (total * dim * rows) pinned);
  lift (view rows (total * dim) pt).

Definition copy_pinned (inputs : Tensor) : M Tensor :=
  pinned ← gets (pinned_temp ∘ self);
  pinned ← lift (not_none pinned);
  pt ← lift (slice_to (numel inputs) pinned);
  if decide (numel pt = numel inputs) then
    let pt := {| data_ptr := data_ptr pt; tensor_device := tensor_device pt;
                 shape := shape inputs; is_pinned := is_pinned pt |} in
    modify_world (log (CopyInto pt inputs));;
    mret pt
  else raise RuntimeError.

Definition add_residual (target source : list Tensor) (broadcast_type : Z)
    (dim : Z) : M unit :=
  split ← get_split broadcast_type;
  split ← lift (not_none split);
  for_each (λ '(idx, (dev, a, b)),
      modify_world (log (SetStream dev));;
      t ← lift (getitem target idx);
      s ← lift (getitem source idx);
      piece ← lift (slice_columns (a * dim) (b * dim) s);
      lift (add_ t piece);;
      modify_world (log (AddInPlace t s (a * dim) (b * dim))))
    (imap pair split);;
  mret tt.

Definition wait_streams (broadcast_type : Z) : M unit :=
  split ← get_split broadcast_type;
  split ← lift (not_none split);
  registry ← gets (global_streams ∘ world);
  for_each (λ '(dev, _, _),
      match registry !! dev with
      | Some _ => modify_world (log (StreamSynchronize dev))
      | None => raise KeyError
      end)
    split;;
  modify_world (log CudaSynchronize).

(** ** Specification vocabulary *)

(** [set_split] as a recursion over the raw split: [d] is the next device id
    and [b] the running end. *)
Fixpoint split_from (d : nat) (b : Z) (raw : list Z) : SplitTable :=
  match raw with
  | [] => []
  | s :: raw' =>
      if decide (s ≠ 0) then (d, b, b + s) :: split_from (S d) (b + s) raw'
      else split_from (S d) (b + s) raw'
  end.

(** Each entry starts where the one before it ended, the first one at [b]. *)
Fixpoint chained (b : Z) (t : SplitTable) : Prop :=
  match t with
  | [] => True
  | (_, a, e) :: t' => a = b ∧ chained e t'
  end.

Definition lengths (t : SplitTable) : list Z := (λ '(_, a, e), e - a) <$> t.

(** The table covers [[0, n)] contiguously, in increasing device order,
    without an empty range. *)
Definition covers (n : Z) (t : SplitTable) : Prop :=
  StronglySorted lt (devices_of t) ∧
  chained 0 t ∧
  Forall (λ '(_, a, e), a < e) t ∧
  sum_Z (lengths t) = n.

(** The devices in the table are those with a non-zero allocation. *)
Definition omits_zero (units : list Z) (t : SplitTable) : Prop :=
  ∀ d, d ∈ devices_of t ↔ ∃ s, units !! d = Some s ∧ s ≠ 0.

(** Every range boundary of the table is a multiple of [q]. *)
Definition aligned (q : Z) (t : SplitTable) : Prop :=
  Forall (λ '(_, a, e), (q | a) ∧ (q | e)) t.

Definition scale_entry (g : Z) (x : nat * Z * Z) : nat * Z * Z :=
  let '(d, a, e) := x in (d, a * g, e * g).

(** The world after [k] more allocations and the events [es]. *)
Definition advance (k : nat) (es : list Event) (w : World) : World :=
  {| get_all_gpu_memory := get_all_gpu_memory w;
     global_streams := global_streams w;
     next_ptr := next_ptr w + k; next_context := next_context w;
     live_contexts := live_contexts w; ext_c_raises := ext_c_raises w;
     issued := issued w ++ es |}.

(** The number of elements of the staging buffers. *)
Definition staging_size (cfg : Config) : Z :=
  Z.max (match max_output_len cfg with
         | Some n => n
         | None => max_input_len cfg
         end * vocab_size cfg)
        (max_input_len cfg * intermediate_size cfg).

(** The work [add_residual] issues: per table entry, switch to the device's
    stream and add the slice of the source into the target. *)
Definition residual_events (target source : list Tensor) (dim : Z)
    (split : SplitTable) : list Event :=
  mjoin ((λ '((dev, a, b), (t, s)),
            [SetStream dev; AddInPlace t s (a * dim) (b * dim)])
         <$> zip split (zip target source)).

(** The slice of the source that [add_residual] takes for a table entry
    exists and can be added into the target. *)
Definition residual_fits (dim : Z) (x : (nat * Z * Z) * (Tensor * Tensor))
    : Prop :=
  let '((_, a, b), (t, s)) := x in
  ∃ piece, slice_columns (a * dim) (b * dim) s = Ok piece ∧
           add_ t piece = Ok tt.


Definition is_alloc (e : Event) : Prop := ∃ t, e = TorchEmpty t.

(** A buffer made by [torch.empty_like(like, device = idx)] at a storage in
    [[lo, hi)]. *)
Definition buffer_like (like : Tensor) (idx : nat) (lo hi : nat) (t : Tensor) : Prop :=
  tensor_device t = Cuda idx ∧ shape t = shape like ∧
  (lo ≤ data_ptr t < hi)%nat.

(** What an operation on a planned context may do to the state: allocate
    and issue work, but not change the object, the registries, or the set
    of native contexts. *)
Definition untouched (s s' : State) : Prop :=
  self s' = self s ∧
  get_all_gpu_memory (world s') = get_all_gpu_memory (world s) ∧
  global_streams (world s') = global_streams (world s) ∧
  next_context (world s') = next_context (world s) ∧
  live_contexts (world s') = live_contexts (world s) ∧
  ext_c_raises (world s') = ext_c_raises (world s) ∧
  (next_ptr (world s) ≤ next_ptr (world s'))%nat ∧
  ∃ es, issued (world s') = issued (world s) ++ es.

(** Whatever the operation returns or raises. *)
Definition leaves_context {A} (m : M A) : Prop :=
  ∀ s r s', m s = (r, s') → untouched s s'.

(** The weights [define_split] works with: the ones given or, without any,
    the free memory the inventory reports. *)
Definition effective_split (gpu_split : option (list Z)) (w : World)
    : res (list Z) :=
  match gpu_split with
  | Some g => Ok g
  | None => free_memory_split (get_all_gpu_memory w)
  end.

(** The inputs the planner is specified for. *)
Definition valid_config (cfg : Config) : Prop :=
  supports_tp cfg = true ∧
  0 < num_key_value_heads cfg ∧
  0 < num_key_value_groups cfg ∧
  0 ≤ intermediate_size cfg ∧ intermediate_size cfg `mod` 128 = 0 ∧
  0 ≤ vocab_size cfg ∧
  0 ≤ hidden_size cfg.

Definition valid_weights (gpu_split : list Z) : Prop :=
  Forall (λ w, 0 ≤ w) gpu_split ∧ 0 < sum_Z gpu_split.

(** Concrete inputs for the examples below: two devices, streams registered
    for both, an engine that raises nothing. *)
Definition example_world : World :=
  {| get_all_gpu_memory := {[ 0%nat := 3; 1%nat := 1 ]};
     global_streams := {[ 0%nat := 100; 1%nat := 101 ]};
     next_ptr := 1; next_context := 0; live_contexts := ∅;
     ext_c_raises := λ _, None; issued := [] |}.

Definition example_config : Config :=
  {| supports_tp := true;
     num_key_value_heads := 32; num_key_value_groups := 4;
     intermediate_size := 4096; vocab_size := 32000; hidden_size := 4096;
     max_input_len := 2048; max_output_len := None |}.

(** The same model with one token added to the vocabulary. *)
Definition odd_vocab_config : Config :=
  {| supports_tp := true;
     num_key_value_heads := 32; num_key_value_groups := 4;
     intermediate_size := 4096; vocab_size := 32001; hidden_size := 4096;
     max_input_len := 2048; max_output_len := None |}.

(** A model so small that only the residual axis reaches the second
    device. *)
Definition narrow_config : Config :=
  {| supports_tp := true;
     num_key_value_heads := 1; num_key_value_groups := 4;
     intermediate_size := 128; vocab_size := 32; hidden_size := 96;
     max_input_len := 16; max_output_len := None |}.

(** The state a constructor call starts from. *)
Definition new_object (cfg : Config) (w : World) : State :=
  {| self := blank cfg; world := w |}.

(** * Proofs *)

(** ** Sums *)

Lemma sum_Z_app l k : sum_Z (l ++ k) = sum_Z l + sum_Z k.
Proof. induction l as [|x l IH]; simpl; lia. Qed.

Lemma sum_Z_nonneg l : Forall (λ x, 0 ≤ x) l → 0 ≤ sum_Z l.
Proof. induction 1; simpl; lia. Qed.

Lemma sum_Z_scale g l : sum_Z ((λ s, s * g) <$> l) = sum_Z l * g.
Proof. induction l as [|x l IH]; csimpl; [done|]. rewrite IH. ring. Qed.

Lemma sum_Z_alter_succ (l : list Z) (i : nat) :
  (i < length l)%nat → sum_Z (alter Z.succ i l) = sum_Z l + 1.
Proof.
  revert i. induction l as [|x l IH]; intros [|i] Hi; simpl in *; try lia.
  change (list_alter Z.succ i l) with (alter Z.succ i l).
  rewrite IH by lia. lia.
Qed.

(** ** The apportionment *)

Section integer_split.
Import util.

Lemma first_largest_from_lt l i best_i best :
  (best_i < i)%nat → (first_largest_from i best_i best l < i + length l)%nat.
Proof.
  revert i best_i best. induction l as [|y l IH]; intros i bi b Hlt; simpl.
  - lia.
  - case_decide.
    + specialize (IH (S i) i y). lia.
    + specialize (IH (S i) bi b). lia.
Qed.

Lemma first_largest_lt l : l ≠ [] → (first_largest l < length l)%nat.
Proof.
  destruct l as [|x l]; [done|]. intros _. simpl.
  pose proof (first_largest_from_lt l 1 0 x). lia.
Qed.

Lemma hand_out_length n : ∀ portions remainders,
  length (hand_out n portions remainders) = length portions.
Proof.
  induction n as [|n IH]; intros p r; simpl; [done|].
  by rewrite IH, length_alter.
Qed.

Lemma hand_out_sum n : ∀ portions remainders,
  remainders ≠ [] → length remainders = length portions →
  sum_Z (hand_out n portions remainders) = sum_Z portions + Z.of_nat n.
Proof.
  induction n as [|n IH]; intros p r Hne Hlen; simpl; [lia|].
  assert (first_largest r < length r)%nat by by apply first_largest_lt.
  rewrite IH.
  - rewrite sum_Z_alter_succ by lia. lia.
  - intros E. apply (f_equal length) in E. rewrite length_insert in E.
    destruct r; done.
  - by rewrite length_insert, length_alter.
Qed.

Lemma hand_out_nonneg n : ∀ portions remainders,
  Forall (λ x, 0 ≤ x) portions →
  Forall (λ x, 0 ≤ x) (hand_out n portions remainders).
Proof.
  induction n as [|n IH]; intros p r Hp; simpl; [done|].
  apply IH. apply Forall_alter; [done|]. intros; lia.
Qed.

Lemma floors_le x w (l : list Z) :
  0 < w → sum_Z ((λ p, (x * p) `div` w) <$> l) * w ≤ x * sum_Z l.
Proof.
  intros Hw. induction l as [|p l IH]; csimpl; [lia|].
  pose proof (Z.mul_div_le (x * p) w Hw). lia.
Qed.

(** The contract of the planner's apportionment: as many allocations as
    weights, adding up to [x]; none negative for a non-negative [x] and
    non-negative weights. *)
Lemma integer_split_spec x split :
  0 < sum_Z split →
  ∃ l, integer_split x split = Ok l ∧
       length l = length split ∧
       sum_Z l = x ∧
       (0 ≤ x → Forall (λ w, 0 ≤ w) split → Forall (λ n, 0 ≤ n) l).
Proof.
  intros Hpos. unfold integer_split. case_decide; [lia|].
  eexists; split; [done|].
  assert (split ≠ []) as Hne by (intros ->; simpl in *; lia).
  pose proof (floors_le x (sum_Z split) split Hpos) as Hfl.
  split_and!.
  - by rewrite hand_out_length, length_fmap.
  - rewrite hand_out_sum.
    + rewrite Z2Nat.id; [lia|]. nia.
    + destruct split; done.
    + by rewrite !length_fmap.
  - intros Hx Hw. apply hand_out_nonneg.
    apply Forall_fmap. eapply Forall_impl; [exact Hw|].
    intros p Hp. simpl in *.
    apply Z.div_pos; [apply Z.mul_nonneg_nonneg; lia | lia].
Qed.

Lemma first_largest_from_max l : ∀ (seen : list Z) best_i best,
  seen !! best_i = Some best → Forall (λ y, y ≤ best) seen →
  ∃ v, (seen ++ l) !! first_largest_from (length seen) best_i best l = Some v ∧
       Forall (λ y, y ≤ v) (seen ++ l).
Proof.
  induction l as [|y l IH]; intros seen bi b Hb Hle; simpl.
  - exists b. rewrite app_nil_r. by split.
  - replace (seen ++ y :: l) with ((seen ++ [y]) ++ l)
      by by rewrite <- app_assoc.
    replace (S (length seen)) with (length (seen ++ [y]))
      by (rewrite length_app; simpl; lia).
    case_decide.
    + apply IH.
      * rewrite lookup_app_r by lia. by rewrite Nat.sub_diag.
      * apply Forall_app. split; [|by repeat constructor].
        eapply Forall_impl; [exact Hle|]. intros; simpl in *; lia.
    + apply IH.
      * rewrite lookup_app_l; [done|]. by eapply lookup_lt_Some.
      * apply Forall_app. split; [done|]. repeat constructor. lia.
Qed.

Lemma first_largest_max l :
  l ≠ [] →
  ∃ v, l !! first_largest l = Some v ∧ Forall (λ y, y ≤ v) l.
Proof.
  destruct l as [|x l]; [done|]. intros _.
  apply (first_largest_from_max l [x] 0%nat x); [done|].
  by repeat constructor.
Qed.

Lemma sum_Z_insert (l : list Z) (i : nat) v y :
  l !! i = Some v → sum_Z (<[i := y]> l) = sum_Z l - v + y.
Proof.
  revert i. induction l as [|x l IH]; intros [|i] Hi; simpl in *; try done.
  - injection Hi as ->. lia.
  - change (list_insert i y l) with (<[i := y]> l). rewrite (IH i Hi). lia.
Qed.

Lemma sum_Z_nonpos l : Forall (λ y, y ≤ 0) l → sum_Z l ≤ 0.
Proof. induction 1; simpl; lia. Qed.

(** Handing out [n] units when the remainders, each below [w], add up to
    more than [w * (n - 1)]: nobody gets more than one unit, and a device
    with no remainder gets none. *)
Lemma hand_out_quota w n : ∀ portions remainders,
  length remainders = length portions →
  Forall (λ r, 0 ≤ r < w) remainders →
  (n = 0%nat ∨ w * (Z.of_nat n - 1) < sum_Z remainders) →
  ∀ (i : nat) p r, portions !! i = Some p → remainders !! i = Some r →
    ∃ a, hand_out n portions remainders !! i = Some a ∧
         p ≤ a ≤ p + 1 ∧ (r = 0 → a = p).
Proof.
  induction n as [|n IH]; intros ps rs Hlen Hrs Hsum i p r Hp Hr.
  { exists p. simpl. split_and!; [done|lia..]. }
  destruct Hsum as [|Hsum]; [done|].
  rewrite Nat2Z.inj_succ in Hsum.
  replace (Z.succ (Z.of_nat n) - 1) with (Z.of_nat n) in Hsum by lia.
  assert (rs ≠ []) as Hne by (by intros ->).
  destruct (first_largest_max rs Hne) as (v & Hv & Hmax).
  pose proof (proj1 (Forall_forall _ _) Hrs v
                ltac:(by eapply list_elem_of_lookup_2)) as Hvw.
  simpl in Hvw.
  assert (0 ≤ w * Z.of_nat n) as Hwn by (apply Z.mul_nonneg_nonneg; lia).
  assert (0 < v) as Hvpos.
  { destruct (decide (0 < v)); [done|]. exfalso.
    assert (sum_Z rs ≤ 0); [|lia].
    apply sum_Z_nonpos. eapply Forall_impl; [exact Hmax|].
    intros; simpl in *; lia. }
  simpl. set (m := first_largest rs) in *.
  destruct (IH (alter Z.succ m ps) (<[m := 0]> rs)) with
    (i := i) (p := if decide (i = m) then Z.succ p else p)
    (r := if decide (i = m) then 0 else r) as (a & Ha & Hbound & Hzero).
  - by rewrite length_insert, length_alter.
  - apply Forall_insert; [done|lia].
  - right. rewrite (sum_Z_insert rs m v 0 Hv). lia.
  - destruct (decide (i = m)) as [->|Him].
    + by rewrite list_lookup_alter_eq, Hp.
    + by rewrite list_lookup_alter_ne.
  - destruct (decide (i = m)) as [->|Him].
    + apply list_lookup_insert_eq. by eapply lookup_lt_Some.
    + by rewrite list_lookup_insert_ne.
  - exists a. split; [done|]. case_decide as Him.
    + subst i. assert (r = v) as -> by congruence.
      specialize (Hzero eq_refl). split; lia.
    + split; [lia|done].
Qed.

Lemma remainders_sum x w (l : list Z) :
  sum_Z ((λ p, (x * p) `mod` w) <$> l)
  = x * sum_Z l - w * sum_Z ((λ p, (x * p) `div` w) <$> l).
Proof.
  induction l as [|p l IH]; csimpl; [lia|].
  rewrite IH. pose proof (Z_div_mod_eq_full (x * p) w). lia.
Qed.

(** The allocation of a device is its quota rounded down or up, and is the
    quota itself when that is a whole number; so a device of weight 0 gets
    nothing. *)
Lemma integer_split_quota x split l :
  0 < sum_Z split → integer_split x split = Ok l →
  ∀ (i : nat) w, split !! i = Some w →
    ∃ n, l !! i = Some n ∧
         (x * w) `div` sum_Z split ≤ n ≤ (x * w) `div` sum_Z split + 1 ∧
         ((x * w) `mod` sum_Z split = 0 → n = (x * w) `div` sum_Z split).
Proof.
  intros Hpos. unfold integer_split. case_decide; [lia|].
  intros [= <-] i w Hw.
  pose proof (floors_le x (sum_Z split) split Hpos) as Hfl.
  apply (hand_out_quota (sum_Z split)).
  - by rewrite !length_fmap.
  - apply Forall_fmap, Forall_forall. intros p _. simpl.
    apply Z.mod_pos_bound. lia.
  - right. rewrite remainders_sum.
    set (floors := sum_Z ((λ p, (x * p) `div` sum_Z split) <$> split)) in *.
    rewrite Z2Nat.id by nia. nia.
  - by rewrite list_lookup_fmap, Hw.
  - by rewrite list_lookup_fmap, Hw.
Qed.

Lemma integer_split_zero_weight x split l (i : nat) :
  0 < sum_Z split → integer_split x split = Ok l →
  split !! i = Some 0 → l !! i = Some 0.
Proof.
  intros Hpos Hl Hi.
  destruct (integer_split_quota x split l Hpos Hl i 0 Hi) as (n & Hn & _ & Hz).
  rewrite Hn, Hz; rewrite Z.mul_0_r; [by rewrite Z.div_0_l by lia|].
  by rewrite Z.mod_0_l by lia.
Qed.

End integer_split.

(** ** From allocations to a split table *)

Section set_split.

Lemma set_split_loop raw : ∀ (f : nat → Z → nat * Z) d b acc,
  (∀ i s, f i s = ((d + i)%nat, s)) →
  foldl set_split_body (b, acc) (imap f raw)
  = (b + sum_Z raw, acc ++ split_from d b raw).
Proof.
  induction raw as [|s raw IH]; intros f d b acc Hf; simpl.
  - by rewrite Z.add_0_r, app_nil_r.
  - rewrite Hf, Nat.add_0_r. simpl.
    rewrite (IH _ (S d)).
    + case_decide; [rewrite <- app_assoc|]; f_equal; simpl; lia.
    + intros i s'. unfold compose. rewrite Hf. f_equal. lia.
Qed.

Lemma set_split_unfold raw : set_split raw = split_from 0 0 raw.
Proof.
  unfold set_split. by rewrite (set_split_loop raw pair 0 0 []).
Qed.

Lemma split_from_elem raw : ∀ d b d' a e,
  (d', a, e) ∈ split_from d b raw ↔
  ∃ (i : nat) s, raw !! i = Some s ∧ s ≠ 0 ∧ d' = (d + i)%nat ∧
                 a = b + sum_Z (take i raw) ∧ e = a + s.
Proof.
  induction raw as [|s raw IH]; intros d b d' a e; simpl.
  - split; [by intros ?%elem_of_nil|]. by intros (i & s & ? & _).
  - assert ((d', a, e) ∈ split_from (S d) (b + s) raw ↔
            ∃ (i : nat) s0, (s :: raw) !! S i = Some s0 ∧ s0 ≠ 0 ∧
              d' = (d + S i)%nat ∧ a = b + sum_Z (take (S i) (s :: raw)) ∧
              e = a + s0) as Htail.
    { rewrite IH. simpl. split; intros (i & s0 & ? & ? & ? & ? & ?);
        exists i, s0; split_and!; auto; lia. }
    assert ((d', a, e) = (d, b, b + s) ∧ s ≠ 0 ↔
            ∃ s0, (s :: raw) !! 0%nat = Some s0 ∧ s0 ≠ 0 ∧
              d' = (d + 0)%nat ∧ a = b + sum_Z (take 0 (s :: raw)) ∧
              e = a + s0) as Hhead.
    { simpl. split.
      - intros [[= -> -> ->] ?]. exists s. split_and!; auto; lia.
      - intros (s0 & [= <-] & ? & -> & -> & ->). split; [|done].
        repeat f_equal; lia. }
    case_decide as Hs.
    + rewrite elem_of_cons, Htail. split.
      * intros [Heq | (i & s0 & ?)]; [|by exists (S i), s0].
        destruct Hhead as [(s0 & ?) _]; [done|]. by exists 0%nat, s0.
      * intros ([|i] & s0 & Hi); [left|right; by exists i, s0].
        apply Hhead. by exists s0.
    + rewrite Htail. split.
      * intros (i & s0 & ?). by exists (S i), s0.
      * intros ([|i] & s0 & Hi); [|by exists i, s0].
        destruct Hi as ([= <-] & ? & _). by destruct Hs.
Qed.

Lemma split_from_devices raw d b d' :
  d' ∈ devices_of (split_from d b raw) ↔
  ∃ (i : nat) s, raw !! i = Some s ∧ s ≠ 0 ∧ d' = (d + i)%nat.
Proof.
  unfold devices_of. rewrite list_elem_of_fmap. split.
  - intros ([[d0 a] e] & -> & (i & s & ? & ? & ? & _)%split_from_elem).
    by exists i, s.
  - intros (i & s & ? & ? & ->).
    exists ((d + i)%nat, b + sum_Z (take i raw), b + sum_Z (take i raw) + s).
    split; [done|]. apply split_from_elem. by exists i, s.
Qed.

Lemma set_split_omits_zero raw : omits_zero raw (set_split raw).
Proof.
  intros d. rewrite set_split_unfold, split_from_devices. split.
  - intros (i & s & ? & ? & ->). by exists s.
  - intros (s & ? & ?). by exists d, s.
Qed.

Lemma split_from_sorted raw : ∀ d b,
  StronglySorted lt (devices_of (split_from d b raw)).
Proof.
  induction raw as [|s raw IH]; intros d b; simpl; [constructor|].
  case_decide; [|apply IH]. simpl. constructor; [apply IH|].
  apply Forall_forall. intros d' (i & ? & _ & _ & ->)%split_from_devices. lia.
Qed.

Lemma split_from_chained raw : ∀ d b, chained b (split_from d b raw).
Proof.
  induction raw as [|s raw IH]; intros d b; simpl; [done|].
  case_decide as Hs; simpl; [by split|].
  assert (s = 0) as -> by lia. rewrite Z.add_0_r. apply IH.
Qed.

Lemma split_from_proper raw : ∀ d b,
  Forall (λ s, 0 ≤ s) raw →
  Forall (λ '(_, a, e), a < e) (split_from d b raw).
Proof.
  induction raw as [|s raw IH]; intros d b Hraw; simpl; [constructor|].
  inversion_clear Hraw.
  case_decide; [constructor; [lia|]|]; by apply IH.
Qed.

Lemma split_from_lengths raw : ∀ d b,
  sum_Z (lengths (split_from d b raw)) = sum_Z raw.
Proof.
  induction raw as [|s raw IH]; intros d b; simpl; [done|].
  case_decide; simpl; rewrite IH; lia.
Qed.

Lemma set_split_covers raw :
  Forall (λ s, 0 ≤ s) raw → covers (sum_Z raw) (set_split raw).
Proof.
  intros Hraw. rewrite set_split_unfold. split_and!.
  - apply split_from_sorted.
  - apply split_from_chained.
  - by apply split_from_proper.
  - apply split_from_lengths.
Qed.

Lemma split_from_scale g raw : g ≠ 0 → ∀ d b,
  split_from d (b * g) ((λ s, s * g) <$> raw)
  = scale_entry g <$> split_from d b raw.
Proof.
  intros Hg. induction raw as [|s raw IH]; intros d b; csimpl; [done|].
  replace (b * g + s * g) with ((b + s) * g) by ring.
  rewrite IH. repeat case_decide; try nia; [|done].
  csimpl. by replace (b * g + s * g) with ((b + s) * g) by ring.
Qed.

Lemma set_split_scale g raw :
  g ≠ 0 →
  set_split ((λ s, s * g) <$> raw) = scale_entry g <$> set_split raw.
Proof.
  intros Hg. rewrite !set_split_unfold.
  by rewrite <- (split_from_scale g raw Hg 0 0).
Qed.

Lemma split_from_aligned q raw : ∀ d b,
  (q | b) → aligned q (split_from d b ((λ s, s * q) <$> raw)).
Proof.
  unfold aligned.
  induction raw as [|s raw IH]; intros d b Hb; csimpl; [constructor|].
  assert (q | b + s * q).
  { apply Z.divide_add_r; [done|]. apply Z.divide_factor_r. }
  case_decide; [constructor; [done|]|]; by apply IH.
Qed.

Lemma set_split_aligned q raw : aligned q (set_split ((λ s, s * q) <$> raw)).
Proof. rewrite set_split_unfold. apply split_from_aligned, Z.divide_0_r. Qed.

End set_split.

(** ** The device set *)

Section all_devices.

Lemma StronglySorted_le_lt (l : list nat) :
  StronglySorted le l → NoDup l → StronglySorted lt l.
Proof.
  induction 1 as [|x l Hl IH Hx]; intros Hnd; [constructor|].
  apply NoDup_cons in Hnd as [Hnotin Hnd].
  constructor; [by apply IH|].
  apply Forall_forall. intros y Hy.
  pose proof (proj1 (Forall_forall _ _) Hx y Hy).
  assert (x ≠ y) by (intros ->; done). lia.
Qed.

Lemma sorted_elem_of (devs : gset nat) d : d ∈ sorted devs ↔ d ∈ devs.
Proof.
  unfold sorted. by rewrite merge_sort_Permutation, elem_of_elements.
Qed.

Lemma sorted_StronglySorted (devs : gset nat) :
  StronglySorted lt (sorted devs).
Proof.
  apply StronglySorted_le_lt.
  - apply StronglySorted_merge_sort; apply _.
  - unfold sorted. rewrite merge_sort_Permutation. apply NoDup_elements.
Qed.

Lemma all_devices_unfold c kv id vc :
  kv_split c = Some kv → id_split c = Some id → vc_split c = Some vc →
  all_devices c
  = Ok (sorted (list_to_set (devices_of kv) ∪ list_to_set (devices_of id)
                ∪ list_to_set (devices_of vc))).
Proof. unfold all_devices. by intros -> -> ->. Qed.

Lemma all_devices_spec c kv id vc :
  kv_split c = Some kv → id_split c = Some id → vc_split c = Some vc →
  ∃ devs, all_devices c = Ok devs ∧
          StronglySorted lt devs ∧
          ∀ d, d ∈ devs ↔
               d ∈ devices_of kv ∨ d ∈ devices_of id ∨ d ∈ devices_of vc.
Proof.
  intros Hkv Hid Hvc. eexists. split; [by apply all_devices_unfold|].
  split; [apply sorted_StronglySorted|].
  intros d. rewrite sorted_elem_of, !elem_of_union, !elem_of_list_to_set.
  tauto.
Qed.

End all_devices.

(** ** Running methods *)

Ltac unfold_M :=
  unfold mbind, M_bind, mret, M_ret, lift, gets, modify_self, modify_world,
    raise, compose.

Lemma bind_run {A B} (m : M A) (f : A → M B) s :
  (m ≫= f) s
  = match m s with
    | (Ok a, s') => f a s'
    | (Raise e, s') => (Raise e, s')
    end.
Proof. done. Qed.

Lemma bind_Ok {A B} (m : M A) (f : A → M B) s a s' :
  m s = (Ok a, s') → (m ≫= f) s = f a s'.
Proof. intros H. by rewrite bind_run, H. Qed.

Lemma for_each_cons {A B} (f : A → M B) x l :
  for_each f (x :: l) = (y ← f x; ys ← for_each f l; mret (y :: ys)).
Proof. done. Qed.

Section define_split.

Lemma define_split_run gpu_split w s n_kv n_id n_vc n_rs d devs :
  let cfg := model_config (self s) in
  let c := set_splits (set_split n_kv)
             (set_split ((λ x, x * 128) <$> n_id))
             (set_split ((λ x, x * 32) <$> n_vc))
             (set_split ((λ x, x * 32) <$> n_rs))
             (set_split ((λ x, x * num_key_value_groups cfg) <$> n_kv))
             (self s) in
  effective_split gpu_split (world s) = Ok w →
  util.integer_split (num_key_value_heads cfg) w = Ok n_kv →
  util.integer_split (intermediate_size cfg `div` 128) w = Ok n_id →
  util.integer_split (vocab_size cfg `div` 32) w = Ok n_vc →
  util.integer_split (hidden_size cfg `div` 32) w = Ok n_rs →
  all_devices c = Ok (d :: devs) →
  define_split gpu_split s = (Ok tt, {| self := set_device d c; world := world s |}).
Proof.
  intros cfg c Hw Hkv Hid Hvc Hrs Hdevs.
  unfold define_split.
  rewrite (bind_Ok _ _ s cfg s) by done.
  rewrite (bind_Ok _ _ s w s).
  - unfold_M. simpl.
    fold cfg. rewrite Hkv, Hid, Hvc, Hrs. simpl.
    unfold all_devices, c in Hdevs. simpl in Hdevs. injection Hdevs as ->.
    done.
  - destruct gpu_split as [g|]; simpl in Hw.
    + by injection Hw as ->.
    + unfold_M. simpl. by rewrite Hw.
Qed.

Lemma set_split_nonempty raw : sum_Z raw ≠ 0 → set_split raw ≠ [].
Proof.
  intros Hsum E. apply Hsum.
  rewrite <- (split_from_lengths raw 0 0), <- set_split_unfold, E. done.
Qed.

Lemma integer_split_Ok x w n :
  0 < sum_Z w → util.integer_split x w = Ok n →
  length n = length w ∧ sum_Z n = x ∧
  (0 ≤ x → Forall (λ p, 0 ≤ p) w → Forall (λ p, 0 ≤ p) n).
Proof.
  intros Hw Hn. destruct (integer_split_spec x w Hw) as (l & Hl & ?).
  rewrite Hl in Hn. by injection Hn as <-.
Qed.

(** Construction succeeds on the inputs the planner is specified for, and
    leaves the five tables that [set_split] makes of the apportionments. *)
Lemma init_plans cfg gpu_split w s :
  valid_config cfg →
  effective_split gpu_split (world s) = Ok w → valid_weights w →
  ∃ s' n_kv n_id n_vc n_rs,
    __init__ cfg gpu_split s = (Ok tt, s') ∧
    world s' = world s ∧
    model_config (self s') = cfg ∧
    ext_tp_context (self s') = None ∧
    util.integer_split (num_key_value_heads cfg) w = Ok n_kv ∧
    util.integer_split (intermediate_size cfg `div` 128) w = Ok n_id ∧
    util.integer_split (vocab_size cfg `div` 32) w = Ok n_vc ∧
    util.integer_split (hidden_size cfg `div` 32) w = Ok n_rs ∧
    kv_split (self s') = Some (set_split n_kv) ∧
    id_split (self s') = Some (set_split ((λ x, x * 128) <$> n_id)) ∧
    vc_split (self s') = Some (set_split ((λ x, x * 32) <$> n_vc)) ∧
    rs_split (self s') = Some (set_split ((λ x, x * 32) <$> n_rs)) ∧
    q_split (self s')
    = Some (set_split ((λ x, x * num_key_value_groups cfg) <$> n_kv)).
Proof.
  intros (Htp & Hkv & Hg & Hid & Hmod & Hvc & Hrs) Heff [Hw Hsum].
  destruct (integer_split_spec (num_key_value_heads cfg) w Hsum)
    as (n_kv & Ekv & _ & Skv & _).
  destruct (integer_split_spec (intermediate_size cfg `div` 128) w Hsum)
    as (n_id & Eid & _).
  destruct (integer_split_spec (vocab_size cfg `div` 32) w Hsum)
    as (n_vc & Evc & _).
  destruct (integer_split_spec (hidden_size cfg `div` 32) w Hsum)
    as (n_rs & Ers & _).
  set (c := set_splits (set_split n_kv)
             (set_split ((λ x, x * 128) <$> n_id))
             (set_split ((λ x, x * 32) <$> n_vc))
             (set_split ((λ x, x * 32) <$> n_rs))
             (set_split ((λ x, x * num_key_value_groups cfg) <$> n_kv))
             (blank cfg)).
  destruct (all_devices_spec c _ _ _ eq_refl eq_refl eq_refl)
    as (devs & Edevs & _ & Hin).
  destruct devs as [|d devs].
  { exfalso. destruct (set_split n_kv) as [|[[d a] e] t] eqn:E.
    - by apply (set_split_nonempty n_kv); [lia|].
    - apply (elem_of_nil d), Hin. left. simpl. left. }
  exists {| self := set_device d c; world := world s |}, n_kv, n_id, n_vc, n_rs.
  split_and!; try done.
  unfold __init__. rewrite Htp. simpl.
  rewrite bool_decide_eq_true_2 by done. simpl.
  unfold_M.  simpl.
  by rewrite (define_split_run gpu_split w
                {| self := blank cfg; world := world s |}
                n_kv n_id n_vc n_rs d devs).
Qed.

End define_split.

(** The two scenarios the specification works out: 32 key/value heads over
    weights 3 : 1 with a head-group ratio of 4, and an intermediate size of
    4096 over three equal weights. *)
Example scenario_heads :
  let s := (__init__ example_config (Some [3; 1])
              (new_object example_config example_world)).2 in
  kv_split (self s) = Some [(0%nat, 0, 24); (1%nat, 24, 32)] ∧
  q_split (self s) = Some [(0%nat, 0, 96); (1%nat, 96, 128)].
Proof. by vm_compute. Qed.

Example scenario_intermediate :
  util.integer_split 32 [1; 1; 1] = Ok [11; 11; 10] ∧
  id_split (self (__init__ example_config (Some [1; 1; 1])
                    (new_object example_config example_world)).2)
  = Some [(0%nat, 0, 1408); (1%nat, 1408, 2816); (2%nat, 2816, 4096)].
Proof. by vm_compute. Qed.

(** ** The planner's tables *)

Section planner.

Lemma omits_zero_scale g units t :
  g ≠ 0 → omits_zero ((λ x, x * g) <$> units) t → omits_zero units t.
Proof.
  intros Hg Hz d. rewrite (Hz d), list_lookup_fmap. split.
  - intros (s & Hs & Hne). destruct (units !! d) as [u|]; [|done].
    injection Hs as <-. exists u. split; [done|]. intros ->. lia.
  - intros (u & -> & Hne). exists (u * g). split; [done|]. nia.
Qed.

Lemma covers_units q n units :
  0 < q → 0 ≤ n → n `mod` q = 0 →
  sum_Z units = n `div` q → Forall (λ p, 0 ≤ p) units →
  covers n (set_split ((λ x, x * q) <$> units)).
Proof.
  intros Hq Hn Hmod Hsum Hpos.
  replace n with (sum_Z ((λ x, x * q) <$> units)).
  - apply set_split_covers, Forall_fmap.
    eapply Forall_impl; [exact Hpos|]. intros p Hp. simpl in *. nia.
  - rewrite sum_Z_scale, Hsum.
    pose proof (Z.div_mod n q). lia.
Qed.

Lemma lengths_units q n units :
  sum_Z units = n `div` q →
  sum_Z (lengths (set_split ((λ x, x * q) <$> units))) = q * (n `div` q).
Proof.
  intros Hsum.
  rewrite set_split_unfold, split_from_lengths, sum_Z_scale, Hsum. ring.
Qed.

End planner.

(** C1 (as amended): for a valid configuration whose vocabulary and hidden
    sizes are multiples of 32, and non-negative weights with a positive
    total, construction succeeds and each of the five split tables covers
    its axis [[0, N)] contiguously: device ids strictly increase, each range
    starts where the previous one ended (the first at 0), no range is empty,
    the lengths add up to N, and the devices listed are exactly those whose
    allocation is not zero.  N is the number of key/value heads, that number
    times the head-group ratio for the query table, and the intermediate,
    vocabulary and hidden sizes. *)
Theorem define_split_covers cfg gpu_split w s :
  valid_config cfg →
  effective_split gpu_split (world s) = Ok w → valid_weights w →
  vocab_size cfg `mod` 32 = 0 → hidden_size cfg `mod` 32 = 0 →
  ∃ s' kv id vc rs q n_kv n_id n_vc n_rs,
    __init__ cfg gpu_split s = (Ok tt, s') ∧
    kv_split (self s') = Some kv ∧ id_split (self s') = Some id ∧
    vc_split (self s') = Some vc ∧ rs_split (self s') = Some rs ∧
    q_split (self s') = Some q ∧
    covers (num_key_value_heads cfg) kv ∧
    covers (intermediate_size cfg) id ∧
    covers (vocab_size cfg) vc ∧
    covers (hidden_size cfg) rs ∧
    covers (num_key_value_heads cfg * num_key_value_groups cfg) q ∧
    util.integer_split (num_key_value_heads cfg) w = Ok n_kv ∧
    util.integer_split (intermediate_size cfg `div` 128) w = Ok n_id ∧
    util.integer_split (vocab_size cfg `div` 32) w = Ok n_vc ∧
    util.integer_split (hidden_size cfg `div` 32) w = Ok n_rs ∧
    omits_zero n_kv kv ∧ omits_zero n_id id ∧ omits_zero n_vc vc ∧
    omits_zero n_rs rs ∧ omits_zero n_kv q.
Proof.
  intros Hcfg Heff Hw Hvmod Hhmod.
  destruct (init_plans cfg gpu_split w s Hcfg Heff Hw)
    as (s' & n_kv & n_id & n_vc & n_rs & Hrun & _ & _ & _ & Ekv & Eid & Evc & Ers
        & Hkv & Hid & Hvc & Hrs & Hq).
  destruct Hcfg as (_ & Pkv & Pg & Pid & Hidmod & Pvc & Prs).
  destruct Hw as [Hw Hsum].
  destruct (integer_split_Ok _ _ _ Hsum Ekv) as (_ & Skv & Nkv).
  destruct (integer_split_Ok _ _ _ Hsum Eid) as (_ & Sid & Nid).
  destruct (integer_split_Ok _ _ _ Hsum Evc) as (_ & Svc & Nvc).
  destruct (integer_split_Ok _ _ _ Hsum Ers) as (_ & Srs & Nrs).
  assert (∀ n, 0 ≤ n → 0 ≤ n `div` 128) as D128
    by (intros; apply Z.div_pos; lia).
  assert (∀ n, 0 ≤ n → 0 ≤ n `div` 32) as D32
    by (intros; apply Z.div_pos; lia).
  eexists s', _, _, _, _, _, n_kv, n_id, n_vc, n_rs.
  split_and!; try done.
  - rewrite <- Skv. apply set_split_covers. apply Nkv; [lia|done].
  - apply covers_units; auto; lia.
  - apply covers_units; auto; lia.
  - apply covers_units; auto; lia.
  - replace (num_key_value_heads cfg * num_key_value_groups cfg)
      with (sum_Z ((λ x, x * num_key_value_groups cfg) <$> n_kv))
      by (rewrite sum_Z_scale; lia).
    apply set_split_covers, Forall_fmap.
    eapply Forall_impl; [apply Nkv; [lia|done]|].
    intros p Hp. simpl in *. nia.
  - apply set_split_omits_zero.
  - apply (omits_zero_scale 128); [lia|]. apply set_split_omits_zero.
  - apply (omits_zero_scale 32); [lia|]. apply set_split_omits_zero.
  - apply (omits_zero_scale 32); [lia|]. apply set_split_omits_zero.
  - apply (omits_zero_scale (num_key_value_groups cfg)); [lia|].
    apply set_split_omits_zero.
Qed.

Ltac valid_input :=
  first
    [ progress (unfold valid_config, valid_weights); simpl; valid_input
    | apply Forall_cons; split; [lia | valid_input]
    | apply Forall_nil; exact I
    | split; valid_input
    | reflexivity
    | lia ].

Lemma define_split_covers_witness :
  valid_config example_config ∧ valid_weights [3; 1] ∧
  ∃ s' kv q,
    __init__ example_config (Some [3; 1]) (new_object example_config example_world)
    = (Ok tt, s') ∧
    kv_split (self s') = Some kv ∧ covers 32 kv ∧
    q_split (self s') = Some q ∧ covers 128 q.
Proof.
  split; [valid_input|]. split; [valid_input|].
  destruct (define_split_covers example_config (Some [3; 1]) [3; 1]
              (new_object example_config example_world))
    as (s' & kv & id & vc & rs & q & n_kv & n_id & n_vc & n_rs & Hrun & Hkv & _ & _
        & _ & Hq & Ckv & _ & _ & _ & Cq & _); [valid_input..|].
  exists s', kv, q. split_and!; assumption.
Defined.

(** C1 (counterexample): with a vocabulary of 32001 tokens construction
    succeeds, but the vocabulary table ends at 32000: its lengths do not add
    up to the axis size. *)
Lemma define_split_vocab_not_covered :
  valid_config odd_vocab_config ∧ valid_weights [3; 1] ∧
  let r := __init__ odd_vocab_config (Some [3; 1])
             (new_object odd_vocab_config example_world) in
  r.1 = Ok tt ∧
  vc_split (self r.2) = Some [(0%nat, 0, 24000); (1%nat, 24000, 32000)] ∧
  ¬ covers (vocab_size odd_vocab_config)
      [(0%nat, 0, 24000); (1%nat, 24000, 32000)].
Proof.
  split; [valid_input|]. split; [valid_input|].
  split; [by vm_compute|]. split; [by vm_compute|].
  intros (_ & _ & _ & Hsum). vm_compute in Hsum. discriminate.
Qed.

(** C4: for a valid configuration and valid weights, the query-head table is
    the key/value-head table with every start and end multiplied by the
    head-group ratio, entry for entry. *)
Theorem q_split_scales_kv_split cfg gpu_split w s :
  valid_config cfg →
  effective_split gpu_split (world s) = Ok w → valid_weights w →
  ∃ s' kv q,
    __init__ cfg gpu_split s = (Ok tt, s') ∧
    kv_split (self s') = Some kv ∧
    q_split (self s') = Some q ∧
    q = scale_entry (num_key_value_groups cfg) <$> kv.
Proof.
  intros Hcfg Heff Hw.
  destruct (init_plans cfg gpu_split w s Hcfg Heff Hw)
    as (s' & n_kv & n_id & n_vc & n_rs & Hrun & _ & _ & _ & _ & _ & _ & _
        & Hkv & _ & _ & _ & Hq).
  destruct Hcfg as (_ & _ & Pg & _).
  exists s', (set_split n_kv), (scale_entry (num_key_value_groups cfg) <$> set_split n_kv).
  split_and!; try done.
  rewrite Hq, set_split_scale; [done|lia].
Qed.

Lemma q_split_scales_kv_split_witness :
  valid_config example_config ∧ valid_weights [3; 1] ∧
  ∃ s' kv q,
    __init__ example_config (Some [3; 1]) (new_object example_config example_world)
    = (Ok tt, s') ∧
    kv_split (self s') = Some kv ∧
    q_split (self s') = Some q ∧
    q = scale_entry 4 <$> kv.
Proof.
  split; [valid_input|]. split; [valid_input|].
  apply (q_split_scales_kv_split example_config (Some [3; 1]) [3; 1]); valid_input.
Defined.

(** C5: for a valid configuration and valid weights, every range start and
    end of the intermediate table is a multiple of 128, and every range
    start and end of the vocabulary and residual tables is a multiple
    of 32. *)
Theorem quantized_splits_aligned cfg gpu_split w s :
  valid_config cfg →
  effective_split gpu_split (world s) = Ok w → valid_weights w →
  ∃ s' id vc rs,
    __init__ cfg gpu_split s = (Ok tt, s') ∧
    id_split (self s') = Some id ∧
    vc_split (self s') = Some vc ∧
    rs_split (self s') = Some rs ∧
    aligned 128 id ∧ aligned 32 vc ∧ aligned 32 rs.
Proof.
  intros Hcfg Heff Hw.
  destruct (init_plans cfg gpu_split w s Hcfg Heff Hw)
    as (s' & n_kv & n_id & n_vc & n_rs & Hrun & _ & _ & _ & _ & _ & _ & _
        & _ & Hid & Hvc & Hrs & _).
  eexists s', _, _, _. split_and!; try done; apply set_split_aligned.
Qed.

Lemma quantized_splits_aligned_witness :
  valid_config odd_vocab_config ∧ valid_weights [3; 1] ∧
  ∃ s' id vc rs,
    __init__ odd_vocab_config None
      (new_object odd_vocab_config example_world) = (Ok tt, s') ∧
    id_split (self s') = Some id ∧
    vc_split (self s') = Some vc ∧
    rs_split (self s') = Some rs ∧
    aligned 128 id ∧ aligned 32 vc ∧ aligned 32 rs.
Proof.
  split; [valid_input|]. split; [valid_input|].
  apply (quantized_splits_aligned odd_vocab_config None [3; 1]); valid_input.
Defined.

(** C10: construction checks divisibility for the intermediate size only.
    A configuration whose intermediate size is not a multiple of 128 is
    refused with an assertion failure.  Every otherwise valid configuration
    is accepted whatever its vocabulary and hidden sizes are, and the
    lengths of the vocabulary (residual) table add up to
    [32 * (size // 32)], which is strictly below the size when the size is
    not a multiple of 32. *)
Theorem only_intermediate_size_is_checked cfg gpu_split w s :
  valid_config cfg →
  effective_split gpu_split (world s) = Ok w → valid_weights w →
  (∀ cfg' gpu_split' s0, intermediate_size cfg' `mod` 128 ≠ 0 →
     __init__ cfg' gpu_split' s0 = (Raise AssertionError, s0)) ∧
  ∃ s' vc rs,
    __init__ cfg gpu_split s = (Ok tt, s') ∧
    vc_split (self s') = Some vc ∧
    rs_split (self s') = Some rs ∧
    sum_Z (lengths vc) = 32 * (vocab_size cfg `div` 32) ∧
    sum_Z (lengths rs) = 32 * (hidden_size cfg `div` 32) ∧
    (vocab_size cfg `mod` 32 ≠ 0 → sum_Z (lengths vc) < vocab_size cfg) ∧
    (hidden_size cfg `mod` 32 ≠ 0 → sum_Z (lengths rs) < hidden_size cfg).
Proof.
  intros Hcfg Heff Hw. split.
  - intros cfg' gpu_split' s0 Hmod. unfold __init__.
    destruct (supports_tp cfg'); simpl; [|done].
    by rewrite bool_decide_eq_false_2.
  - destruct (init_plans cfg gpu_split w s Hcfg Heff Hw)
      as (s' & n_kv & n_id & n_vc & n_rs & Hrun & _ & _ & _ & _ & _ & Evc & Ers
          & _ & _ & Hvc & Hrs & _).
    destruct Hw as [Hw Hsum].
    destruct (integer_split_Ok _ _ _ Hsum Evc) as (_ & Svc & _).
    destruct (integer_split_Ok _ _ _ Hsum Ers) as (_ & Srs & _).
    pose proof (lengths_units 32 (vocab_size cfg) n_vc Svc) as Lvc.
    pose proof (lengths_units 32 (hidden_size cfg) n_rs Srs) as Lrs.
    eexists s', _, _. split_and!; try done.
    + rewrite Lvc. intros Hmod.
      pose proof (Z.div_mod (vocab_size cfg) 32).
      pose proof (Z.mod_pos_bound (vocab_size cfg) 32). lia.
    + rewrite Lrs. intros Hmod.
      pose proof (Z.div_mod (hidden_size cfg) 32).
      pose proof (Z.mod_pos_bound (hidden_size cfg) 32). lia.
Qed.

Lemma only_intermediate_size_is_checked_witness :
  valid_config odd_vocab_config ∧ valid_weights [3; 1] ∧
  vocab_size odd_vocab_config `mod` 32 ≠ 0 ∧
  ∃ s' vc,
    __init__ odd_vocab_config (Some [3; 1])
      (new_object odd_vocab_config example_world) = (Ok tt, s') ∧
    vc_split (self s') = Some vc ∧
    sum_Z (lengths vc) = 32000 ∧
    sum_Z (lengths vc) < 32001.
Proof.
  split; [valid_input|]. split; [valid_input|]. split; [by vm_compute|].
  destruct (only_intermediate_size_is_checked odd_vocab_config (Some [3; 1]) [3; 1]
              (new_object odd_vocab_config example_world))
    as (_ & s' & vc & rs & Hrun & Hvc & _ & Hsum & _ & Hlt & _);
    [valid_input..|].
  exists s', vc. split_and!; [assumption..|].
  apply Hlt. by vm_compute.
Defined.

(** C6: on a context whose split tables are computed, [all_devices] returns
    a strictly increasing list whose members are exactly the device ids of
    the key/value-head, intermediate and vocabulary tables; an id that
    appears in the residual or query table only is not in it. *)
Theorem all_devices_sorted_union c kv id vc rs q :
  kv_split c = Some kv → id_split c = Some id → vc_split c = Some vc →
  rs_split c = Some rs → q_split c = Some q →
  ∃ devs,
    all_devices c = Ok devs ∧
    StronglySorted lt devs ∧
    (∀ d, d ∈ devs ↔
          d ∈ devices_of kv ∨ d ∈ devices_of id ∨ d ∈ devices_of vc) ∧
    (∀ d, d ∈ devices_of rs ∨ d ∈ devices_of q →
          d ∉ devices_of kv → d ∉ devices_of id → d ∉ devices_of vc →
          d ∉ devs).
Proof.
  intros Hkv Hid Hvc _ _.
  destruct (all_devices_spec c kv id vc Hkv Hid Hvc) as (devs & E & Hs & Hin).
  exists devs. split_and!; try done.
  intros d _ ? ? ?. rewrite Hin. tauto.
Qed.

Lemma all_devices_sorted_union_witness :
  let c := self (__init__ narrow_config (Some [2; 1])
                   (new_object narrow_config example_world)).2 in
  rs_split c = Some [(0%nat, 0, 64); (1%nat, 64, 96)] ∧
  ∃ devs, all_devices c = Ok devs ∧ StronglySorted lt devs ∧ 1%nat ∉ devs.
Proof.
  intros c. split; [reflexivity|].
  destruct (all_devices_sorted_union c [(0%nat, 0, 1)] [(0%nat, 0, 128)]
              [(0%nat, 0, 32)] [(0%nat, 0, 64); (1%nat, 64, 96)]
              [(0%nat, 0, 4)])
    as (devs & E & Hs & _ & Hout); [reflexivity..|].
  exists devs. split_and!; [assumption..|].
  apply Hout.
  - left. apply list_elem_of_In. simpl. tauto.
  - intros H%list_elem_of_In. simpl in H. intuition lia.
  - intros H%list_elem_of_In. simpl in H. intuition lia.
  - intros H%list_elem_of_In. simpl in H. intuition lia.
Defined.

(** ** The world under allocation *)

Section world.

Lemma advance_0 w : advance 0 [] w = w.
Proof. destruct w. unfold advance. simpl. f_equal; [lia|apply app_nil_r]. Qed.

Lemma advance_advance k1 es1 k2 es2 w :
  advance k2 es2 (advance k1 es1 w) = advance (k1 + k2) (es1 ++ es2) w.
Proof. unfold advance. simpl. f_equal; [lia|by rewrite app_assoc]. Qed.

Lemma log_advance e k es w : log e (advance k es w) = advance k (es ++ [e]) w.
Proof. unfold log, advance. simpl. f_equal. by rewrite app_assoc. Qed.

Lemma torch_empty_run shp dev pin s :
  torch_empty shp dev pin s
  = let t := {| data_ptr := next_ptr (world s); tensor_device := dev;
                shape := shp; is_pinned := pin |} in
    (Ok t, {| self := self s; world := advance 1 [TorchEmpty t] (world s) |}).
Proof.
  unfold torch_empty. unfold_M. simpl. do 2 f_equal.
  unfold log, take_ptr, advance. simpl. f_equal. lia.
Qed.

Lemma python_max_spec l :
  l ≠ [] → ∃ m, python_max l = Ok m ∧ m ∈ l ∧ ∀ d, d ∈ l → (d ≤ m)%nat.
Proof.
  destruct l as [|x l]; [done|]. intros _. simpl. eexists; split; [done|].
  revert x. induction l as [|y l IH]; intros x; simpl.
  - split; [left|]. by intros d ->%list_elem_of_singleton.
  - destruct (IH (x `max` y)%nat) as [Hin Hle]. split.
    + apply elem_of_cons in Hin as [Heq|Hin]; [|by do 2 right].
      rewrite Heq. destruct (Nat.max_spec x y) as [[_ ->]|[_ ->]];
        [right|]; left.
    + intros d Hd. pose proof (Hle (x `max` y)%nat ltac:(left)).
      apply elem_of_cons in Hd as [->|Hd]; [lia|].
      apply elem_of_cons in Hd as [->|Hd]; [lia|].
      apply Hle. by right.
Qed.

End world.

Section finalize.

Lemma device_temp_loop (devices : list nat) pinned : ∀ l s,
  ∃ ts k es,
    for_each (λ idx : nat,
        if decide (idx ∈ devices) then torch_empty_like pinned (Cuda idx)
        else mret none_tensor) l s
    = (Ok ts, {| self := self s; world := advance k es (world s) |}) ∧
    Forall is_alloc es ∧
    Forall2 (λ idx t,
        if decide (idx ∈ devices)
        then buffer_like pinned idx (next_ptr (world s)) (next_ptr (world s) + k) t
        else t = none_tensor) l ts.
Proof.
  induction l as [|idx l IH]; intros s.
  - exists [], 0%nat, []. rewrite advance_0. destruct s. by repeat constructor.
  - rewrite for_each_cons. case_decide as Hidx.
    + unfold torch_empty_like.
      pose proof (torch_empty_run (shape pinned) (Cuda idx) false s) as Halloc.
      cbv zeta in Halloc.
      destruct (IH {| self := self s;
                      world := advance 1 [TorchEmpty {| data_ptr := next_ptr (world s);
                          tensor_device := Cuda idx; shape := shape pinned;
                          is_pinned := false |}] (world s) |})
        as (ts & k & es & Hrun & Hes & Hts).
      eexists (_ :: ts), (1 + k)%nat, (_ :: es).
      rewrite (bind_Ok _ _ _ _ _ Halloc), (bind_Ok _ _ _ _ _ Hrun).
      cbn [self world]. rewrite advance_advance. split_and!; [done| |].
      * constructor; [by eexists|done].
      * constructor.
        -- rewrite decide_True by done. unfold buffer_like. simpl. split_and!; auto; lia.
        -- eapply Forall2_impl; [exact Hts|]. intros i t. simpl.
           case_decide; [|done]. unfold buffer_like. simpl.
           intros (? & ? & ?). split_and!; auto; lia.
    + destruct (IH s) as (ts & k & es & Hrun & Hes & Hts).
      exists (none_tensor :: ts), k, es.
      rewrite (bind_Ok _ _ s none_tensor s) by done.
      rewrite (bind_Ok _ _ _ _ _ Hrun).
      split_and!; [done..|]. constructor; [by rewrite decide_False|done].
Qed.

Lemma streams_loop (registry : gmap nat Z) : ∀ l s,
  Forall (λ idx, is_Some (registry !! idx)) l →
  ∃ strms,
    for_each (λ idx : nat,
        match registry !! idx with
        | Some st => mret st
        | None => raise KeyError
        end) l s = (Ok strms, s) ∧
    Forall2 (λ idx st, registry !! idx = Some st) l strms.
Proof.
  induction l as [|idx l IH]; intros s Hl.
  - by exists [].
  - inversion_clear Hl as [|? ? [st Hst] Hl'].
    destruct (IH s Hl') as (strms & Hrun & Hstr).
    exists (st :: strms). rewrite for_each_cons, Hst.
    rewrite (bind_Ok _ _ s st s) by done.
    rewrite (bind_Ok _ _ _ _ _ Hrun). split; [done|].
    by constructor.
Qed.

Lemma finalize_run s devs :
  all_devices (self s) = Ok devs → devs ≠ [] →
  Forall (λ d, is_Some (global_streams (world s) !! d)) devs →
  ∃ m ts strms k es,
    let pinned := {| data_ptr := next_ptr (world s); tensor_device := Cpu;
                     shape := [staging_size (model_config (self s))];
                     is_pinned := true |} in
    let h := next_context (world s) in
    let c := set_streams strms
               (set_device_temp ts (set_pinned_temp pinned (self s))) in
    python_max devs = Ok m ∧
    finalize s
    = (Ok tt,
       {| self := set_ext_tp_context (Some h) c;
          world :=
            log (MakeTpContext h (kv_split c) (id_split c) (vc_split c)
                   (rs_split c) (q_split c) (pinned_temp c) (device_temp c)
                   (streams c))
              (set_contexts (S h) ({[h]} ∪ live_contexts (world s))
                 (advance (1 + k) (TorchEmpty pinned :: es) (world s))) |}) ∧
    Forall is_alloc es ∧
    Forall2 (λ idx t,
        if decide (idx ∈ devs)
        then buffer_like pinned idx (S (next_ptr (world s)))
               (S (next_ptr (world s)) + k) t
        else t = none_tensor) (seq 0 (m + 1)) ts ∧
    Forall2 (λ idx st, global_streams (world s) !! idx = Some st) devs strms.
Proof.
  intros Hdevs Hne Hreg.
  destruct (python_max_spec devs Hne) as (m & Hm & _).
  set (pinned := {| data_ptr := next_ptr (world s); tensor_device := Cpu;
                    shape := [staging_size (model_config (self s))];
                    is_pinned := true |}).
  set (s1 := {| self := set_pinned_temp pinned (self s);
                world := advance 1 [TorchEmpty pinned] (world s) |}).
  destruct (device_temp_loop devs pinned (seq 0 (m + 1)) s1)
    as (ts & k & es & Hloop & Hes & Hts).
  set (s2 := {| self := set_device_temp ts (self s1);
                world := advance k es (world s1) |}).
  destruct (streams_loop (global_streams (world s2)) devs s2 Hreg)
    as (strms & Hstr & Hstrms).
  exists m, ts, strms, k, es. cbv zeta. fold pinned.
  split_and!; try done.
  - unfold finalize.
    rewrite (bind_Ok _ _ s (model_config (self s)) s) by done.
    erewrite bind_Ok; [|apply torch_empty_run]. cbv zeta.
    fold (staging_size (model_config (self s))). fold pinned.
    rewrite (bind_Ok _ _ _ tt s1) by done.
    rewrite (bind_Ok _ _ s1 (self s1) s1) by done.
    rewrite (bind_Ok _ _ s1 devs s1) by (unfold lift; by rewrite <- Hdevs).
    rewrite (bind_Ok _ _ s1 m s1) by (unfold lift; by rewrite <- Hm).
    rewrite (bind_Ok _ _ _ _ _ Hloop).
    rewrite (bind_Ok _ _ _ tt s2) by done.
    rewrite (bind_Ok _ _ s2 (self s2) s2) by done.
    rewrite (bind_Ok _ _ s2 devs s2) by (unfold lift; by rewrite <- Hdevs).
    rewrite (bind_Ok _ _ s2 (global_streams (world s2)) s2) by done.
    rewrite (bind_Ok _ _ _ _ _ Hstr).
    unfold make_tp_context. unfold_M. unfold s2, s1. cbn [self world].
    by rewrite advance_advance.
  - eapply Forall2_impl; [exact Hts|]. intros idx t. simpl.
    case_decide; [|done]. by rewrite Nat.add_1_r.
Qed.

End finalize.

(** The devices [finalize] works for, on a context with a non-empty table
    whose devices all have a stream. *)
Lemma participants s kv id vc :
  kv_split (self s) = Some kv → id_split (self s) = Some id →
  vc_split (self s) = Some vc →
  kv ≠ [] ∨ id ≠ [] ∨ vc ≠ [] →
  (∀ d, d ∈ devices_of kv ∨ d ∈ devices_of id ∨ d ∈ devices_of vc →
        is_Some (global_streams (world s) !! d)) →
  ∃ devs,
    all_devices (self s) = Ok devs ∧ devs ≠ [] ∧
    Forall (λ d, is_Some (global_streams (world s) !! d)) devs ∧
    ∀ d, d ∈ devs ↔
         d ∈ devices_of kv ∨ d ∈ devices_of id ∨ d ∈ devices_of vc.
Proof.
  intros Hkv Hid Hvc Hne Hreg.
  destruct (all_devices_spec (self s) kv id vc Hkv Hid Hvc)
    as (devs & Hdevs & _ & Hin).
  exists devs. split_and!; try done.
  - assert (∃ d, d ∈ devs) as [d Hd]; [|by intros ->; apply elem_of_nil in Hd].
    destruct Hne as [H|[H|H]];
      [destruct kv as [|[[d ?] ?] ?]|destruct id as [|[[d ?] ?] ?]
      |destruct vc as [|[[d ?] ?] ?]]; try done;
      exists d; apply Hin; simpl; [left|right; left|right; right]; left.
  - apply Forall_forall. intros d Hd. by apply Hreg, Hin.
Qed.

(** C3 (as amended): after [finalize], [device_temp] has one slot for each
    id from 0 to the largest id of [all_devices()].  Every id of the
    key/value-head, intermediate or vocabulary table holds a device-local
    buffer on that device with the shape of the host-pinned buffer, which
    has [staging_size] elements; every other id in the range, also one that
    the residual or query table lists, holds the sentinel; an id beyond the
    range has no slot. *)
Theorem finalize_device_temp s kv id vc :
  kv_split (self s) = Some kv → id_split (self s) = Some id →
  vc_split (self s) = Some vc →
  kv ≠ [] ∨ id ≠ [] ∨ vc ≠ [] →
  (∀ d, d ∈ devices_of kv ∨ d ∈ devices_of id ∨ d ∈ devices_of vc →
        is_Some (global_streams (world s) !! d)) →
  ∃ s' pinned ts m,
    finalize s = (Ok tt, s') ∧
    pinned_temp (self s') = Some pinned ∧
    device_temp (self s') = Some ts ∧
    tensor_device pinned = Cpu ∧ is_pinned pinned = true ∧
    shape pinned = [staging_size (model_config (self s))] ∧
    length ts = S m ∧
    (m ∈ devices_of kv ∨ m ∈ devices_of id ∨ m ∈ devices_of vc) ∧
    ∀ d,
      let participant :=
        d ∈ devices_of kv ∨ d ∈ devices_of id ∨ d ∈ devices_of vc in
      (participant →
         (d ≤ m)%nat ∧
         ∃ t, ts !! d = Some t ∧ tensor_device t = Cuda d ∧
              shape t = shape pinned ∧ t ≠ none_tensor) ∧
      (¬ participant → (d ≤ m)%nat → ts !! d = Some none_tensor) ∧
      ((m < d)%nat → ts !! d = None).
Proof.
  intros Hkv Hid Hvc Hne Hreg.
  destruct (participants s kv id vc Hkv Hid Hvc Hne Hreg)
    as (devs & Hdevs & Hdne & Hregd & Hin).
  destruct (finalize_run s devs Hdevs Hdne)
    as (m & ts & strms & k & es & Hm & Hrun & _ & Hts & _); [done|].
  destruct (python_max_spec devs Hdne) as (m' & Hm' & Hmin & Hmax).
  assert (m' = m) as -> by congruence.
  pose proof (Forall2_length _ _ _ Hts) as Hlen.
  rewrite length_seq in Hlen.
  eexists _, _, ts, m. split; [exact Hrun|].
  split_and!; try done; [lia|by apply Hin|].
  intros d participant. split_and!.
  - intros Hd%Hin. pose proof (Hmax d Hd). split; [done|].
    destruct (Forall2_lookup_l _ _ _ d d Hts) as (t & Ht & Hrel).
    { apply lookup_seq. lia. }
    rewrite decide_True in Hrel by done. destruct Hrel as (Hdev & Hshape & _).
    exists t. split_and!; try done.
    intros ->. simpl in Hdev. discriminate.
  - intros Hd Hle.
    destruct (Forall2_lookup_l _ _ _ d d Hts) as (t & Ht & Hrel).
    { apply lookup_seq. lia. }
    rewrite decide_False in Hrel; [by subst|]. by intros ?%Hin.
  - intros Hlt. apply lookup_ge_None. lia.
Qed.

Lemma finalize_device_temp_witness :
  let s := (__init__ narrow_config (Some [2; 1])
              (new_object narrow_config example_world)).2 in
  q_split (self s) = Some [(0%nat, 0, 4)] ∧
  rs_split (self s) = Some [(0%nat, 0, 64); (1%nat, 64, 96)] ∧
  ∃ s' ts t,
    finalize s = (Ok tt, s') ∧ device_temp (self s') = Some ts ∧
    ts !! 0%nat = Some t ∧ tensor_device t = Cuda 0 ∧ shape t = [2048] ∧
    ts !! 1%nat = None.
Proof.
  intros s. split; [reflexivity|]. split; [reflexivity|].
  destruct (finalize_device_temp s [(0%nat, 0, 1)] [(0%nat, 0, 128)]
              [(0%nat, 0, 32)])
    as (s' & pinned & ts & m & Hrun & _ & Hts & _ & _ & Hshape & Hlen & Hm & Hd);
    [reflexivity| reflexivity | reflexivity | by left | |].
  { intros d Hd. exists 100.
    assert (d = 0%nat) as ->; [|reflexivity].
    destruct Hd as [Hd|[Hd|Hd]]; apply list_elem_of_In in Hd; simpl in Hd;
      intuition. }
  assert (m = 0%nat) as ->.
  { destruct Hm as [H|[H|H]]; apply list_elem_of_In in H; simpl in H;
      intuition. }
  destruct (Hd 0%nat) as [Hpart _].
  destruct Hpart as (_ & t & Ht & Hdev & Hsh & _).
  { left. apply list_elem_of_In. simpl. tauto. }
  exists s', ts, t. split_and!; try assumption.
  - by rewrite Hsh, Hshape.
  - apply (Hd 1%nat). lia.
Defined.

(** C3 (counterexample): the residual table of this context lists device 1,
    but after [finalize] device 1 holds no staging buffer: [device_temp] has
    the single slot of device 0. *)
Lemma finalize_skips_residual_only_device :
  valid_config narrow_config ∧ valid_weights [2; 1] ∧
  let r := (__init__ narrow_config (Some [2; 1]);; finalize)
             (new_object narrow_config example_world) in
  r.1 = Ok tt ∧
  rs_split (self r.2) = Some [(0%nat, 0, 64); (1%nat, 64, 96)] ∧
  device_temp (self r.2)
  = Some [{| data_ptr := 2; tensor_device := Cuda 0; shape := [2048];
             is_pinned := false |}].
Proof.
  split; [valid_input|]. split; [valid_input|].
  by vm_compute.
Qed.

(** ** The life cycle *)

Section lifecycle.

(** What one [finalize] leaves behind, on a context whose participating
    devices all have a stream. *)
Lemma finalize_effects s kv id vc :
  kv_split (self s) = Some kv → id_split (self s) = Some id →
  vc_split (self s) = Some vc →
  kv ≠ [] ∨ id ≠ [] ∨ vc ≠ [] →
  (∀ d, d ∈ devices_of kv ∨ d ∈ devices_of id ∨ d ∈ devices_of vc →
        is_Some (global_streams (world s) !! d)) →
  ∃ s' pinned es,
    finalize s = (Ok tt, s') ∧
    kv_split (self s') = Some kv ∧ id_split (self s') = Some id ∧
    vc_split (self s') = Some vc ∧
    global_streams (world s') = global_streams (world s) ∧
    ext_tp_context (self s') = Some (next_context (world s)) ∧
    next_context (world s') = S (next_context (world s)) ∧
    live_contexts (world s') = {[next_context (world s)]} ∪ live_contexts (world s) ∧
    pinned_temp (self s') = Some pinned ∧
    data_ptr pinned = next_ptr (world s) ∧
    (next_ptr (world s) < next_ptr (world s'))%nat ∧
    issued (world s') = issued (world s) ++ es ∧
    ∀ h, FreeTpContext h ∉ es.
Proof.
  intros Hkv Hid Hvc Hne Hreg.
  destruct (participants s kv id vc Hkv Hid Hvc Hne Hreg)
    as (devs & Hdevs & Hdne & Hregd & Hin).
  destruct (finalize_run s devs Hdevs Hdne)
    as (m & ts & strms & k & es & Hm & Hrun & Hes & _ & _); [done|].
  eexists _, _, _. split; [exact Hrun|]. simpl.
  split_and!; try done; [lia|by rewrite <- app_assoc|].
  intros h [Hh|Hh]%elem_of_app.
  - apply elem_of_cons in Hh as [?|Hh]; [done|].
    by destruct (proj1 (Forall_forall _ _) Hes _ Hh).
  - by apply list_elem_of_singleton in Hh.
Qed.

Lemma unload_run s :
  unload s
  = match ext_tp_context (self s) with
    | Some h =>
        (Ok tt,
         {| self := set_ext_tp_context None (self s);
            world := log (FreeTpContext h)
                       (set_contexts (next_context (world s))
                          (live_contexts (world s) ∖ {[h]}) (world s)) |})
    | None => (Ok tt, s)
    end.
Proof. unfold unload. unfold_M. simpl. by destruct (ext_tp_context (self s)). Qed.

End lifecycle.

(** C7 (as amended): [finalize] makes no life-cycle check.  Called a second
    time without an [unload] in between, it succeeds like the first time:
    it allocates a new pinned buffer and makes a new native context whose
    handle replaces the stored one.  Nothing is freed: the first context
    stays live, and the object no longer refers to it. *)
Theorem finalize_twice_leaks s kv id vc :
  kv_split (self s) = Some kv → id_split (self s) = Some id →
  vc_split (self s) = Some vc →
  kv ≠ [] ∨ id ≠ [] ∨ vc ≠ [] →
  (∀ d, d ∈ devices_of kv ∨ d ∈ devices_of id ∨ d ∈ devices_of vc →
        is_Some (global_streams (world s) !! d)) →
  ∃ s1 s2 h1 h2 p1 p2 es,
    finalize s = (Ok tt, s1) ∧
    finalize s1 = (Ok tt, s2) ∧
    ext_tp_context (self s1) = Some h1 ∧
    ext_tp_context (self s2) = Some h2 ∧
    h1 ≠ h2 ∧
    h1 ∈ live_contexts (world s2) ∧ h2 ∈ live_contexts (world s2) ∧
    pinned_temp (self s1) = Some p1 ∧
    pinned_temp (self s2) = Some p2 ∧
    data_ptr p1 ≠ data_ptr p2 ∧
    issued (world s2) = issued (world s1) ++ es ∧
    ∀ h, FreeTpContext h ∉ es.
Proof.
  intros Hkv Hid Hvc Hne Hreg.
  destruct (finalize_effects s kv id vc Hkv Hid Hvc Hne Hreg)
    as (s1 & p1 & es1 & Hrun1 & Hkv1 & Hid1 & Hvc1 & Hreg1 & Hh1 & Hn1 & Hl1
        & Hp1 & Hd1 & Hlt1 & _).
  destruct (finalize_effects s1 kv id vc Hkv1 Hid1 Hvc1 Hne)
    as (s2 & p2 & es2 & Hrun2 & _ & _ & _ & _ & Hh2 & _ & Hl2
        & Hp2 & Hd2 & _ & Hes2 & Hfree).
  { intros d Hd. rewrite Hreg1. by apply Hreg. }
  exists s1, s2, (next_context (world s)), (next_context (world s1)), p1, p2, es2.
  split_and!; try done.
  - lia.
  - rewrite Hl2, Hl1. apply elem_of_union. right.
    apply elem_of_union. left. by apply elem_of_singleton.
  - rewrite Hl2. apply elem_of_union. left. by apply elem_of_singleton.
  - lia.
Qed.

Lemma finalize_twice_leaks_witness :
  let s := (__init__ example_config (Some [3; 1])
              (new_object example_config example_world)).2 in
  ∃ s2, (finalize;; finalize) s = (Ok tt, s2) ∧
        ext_tp_context (self s2) = Some 1%nat ∧
        0%nat ∈ live_contexts (world s2).
Proof.
  intros s.
  destruct (finalize_twice_leaks s [(0%nat, 0, 24); (1%nat, 24, 32)]
              [(0%nat, 0, 3072); (1%nat, 3072, 4096)]
              [(0%nat, 0, 24000); (1%nat, 24000, 32000)])
    as (s1 & s2 & h1 & h2 & p1 & p2 & es & Hrun1 & Hrun2 & Hh1 & Hh2 & _
        & Hl1 & _); [reflexivity|reflexivity|reflexivity|by left| |].
  { intros d Hd.
    assert (d = 0%nat ∨ d = 1%nat) as [-> | ->]; [|by eexists..].
    destruct Hd as [Hd|[Hd|Hd]]; apply list_elem_of_In in Hd; simpl in Hd;
      intuition. }
  exists s2. rewrite (bind_Ok _ _ _ _ _ Hrun1). split; [exact Hrun2|].
  assert (h1 = 0%nat) as Eh1.
  { vm_compute in Hrun1. injection Hrun1 as <-. by injection Hh1. }
  assert (h2 = 1%nat) as Eh2.
  { vm_compute in Hrun1. injection Hrun1 as <-.
    vm_compute in Hrun2. injection Hrun2 as <-. by injection Hh2. }
  rewrite <- Eh2, <- Eh1. by split.
Defined.

(** C7 (counterexample): a second [finalize] right after the first returns
    normally; the object then holds handle 1, handle 0 is still live, and
    the only native calls issued were the two constructions. *)
Lemma finalize_twice_does_not_raise :
  let r := (__init__ example_config (Some [3; 1]);; finalize;; finalize)
             (new_object example_config example_world) in
  r.1 = Ok tt ∧
  ext_tp_context (self r.2) = Some 1%nat ∧
  0%nat ∈ live_contexts (world r.2) ∧
  FreeTpContext 0 ∉ issued (world r.2).
Proof. split_and!; compute_done. Qed.

(** C9: [unload] always returns normally and leaves the handle released.
    When a handle was held it is freed, once, and nothing else changes; when
    none was held (already unloaded, or never finalized) the state is left
    as it was.  In particular a second [unload] is a no-op. *)
Theorem unload_idempotent s :
  ∃ s',
    unload s = (Ok tt, s') ∧
    ext_tp_context (self s') = None ∧
    unload s' = (Ok tt, s') ∧
    (ext_tp_context (self s) = None → s' = s) ∧
    (∀ h, ext_tp_context (self s) = Some h →
          self s' = set_ext_tp_context None (self s) ∧
          live_contexts (world s') = live_contexts (world s) ∖ {[h]} ∧
          issued (world s') = issued (world s) ++ [FreeTpContext h]).
Proof.
  rewrite unload_run. destruct (ext_tp_context (self s)) as [h|] eqn:Hh.
  - eexists. split; [done|]. rewrite unload_run. simpl.
    split_and!; try done. by intros h' [= <-].
  - exists s. rewrite unload_run, Hh. by split_and!.
Qed.

(** ** The collectives *)

Section collectives.

Lemma get_split_run bt s :
  ∃ r, get_split bt s = (r, s) ∧
       (r = Ok (kv_split (self s)) ∨ r = Ok (id_split (self s)) ∨
        r = Ok (vc_split (self s)) ∨ r = Ok (rs_split (self s)) ∨
        r = Ok (q_split (self s)) ∨ r = Raise ValueError).
Proof.
  unfold get_split. unfold_M. simpl.
  repeat case_decide; eexists; (split; [done|]); tauto.
Qed.

Lemma broadcast_loop input : ∀ (split : SplitTable) s,
  ∃ ts k es,
    for_each (λ '(idx, _, _),
        if decide (device_index input = Some idx) then mret input
        else torch_empty_like input (Cuda idx)) split s
    = (Ok ts, {| self := self s; world := advance k es (world s) |}) ∧
    Forall is_alloc es ∧
    Forall2 (λ e t,
        if decide (device_index input = Some e.1.1) then t = input
        else buffer_like input e.1.1 (next_ptr (world s))
               (next_ptr (world s) + k) t) split ts ∧
    ∀ (i j : nat) ei ej ti tj,
      (i < j)%nat → split !! i = Some ei → split !! j = Some ej →
      ts !! i = Some ti → ts !! j = Some tj →
      device_index input ≠ Some ei.1.1 → device_index input ≠ Some ej.1.1 →
      (data_ptr ti < data_ptr tj)%nat.
Proof.
  induction split as [|[[idx a] b] split IH]; intros s.
  - exists [], 0%nat, []. rewrite advance_0. destruct s.
    split_and!; try by constructor. intros i j ? ? ? ? _ H. by destruct i.
  - rewrite for_each_cons. case_decide as Hidx.
    + destruct (IH s) as (ts & k & es & Hrun & Hes & Hts & Hinc).
      exists (input :: ts), k, es.
      rewrite (bind_Ok _ _ s input s) by done.
      rewrite (bind_Ok _ _ _ _ _ Hrun).
      split_and!; [done..| |].
      * constructor; [simpl; by rewrite decide_True|done].
      * intros [|i] [|j] ei ej ti tj Hij Hei Hej Hti Htj Hni Hnj; try lia.
        -- simpl in Hei. injection Hei as <-. by destruct Hni.
        -- eapply (Hinc i j); eauto. lia.
    + unfold torch_empty_like.
      pose proof (torch_empty_run (shape input) (Cuda idx) false s) as Halloc.
      cbv zeta in Halloc.
      destruct (IH {| self := self s;
                      world := advance 1 [TorchEmpty {| data_ptr := next_ptr (world s);
                          tensor_device := Cuda idx; shape := shape input;
                          is_pinned := false |}] (world s) |})
        as (ts & k & es & Hrun & Hes & Hts & Hinc).
      eexists (_ :: ts), (1 + k)%nat, (_ :: es).
      rewrite (bind_Ok _ _ _ _ _ Halloc), (bind_Ok _ _ _ _ _ Hrun).
      cbn [self world]. rewrite advance_advance. split_and!; [done| | |].
      * constructor; [by eexists|done].
      * constructor.
        -- simpl. rewrite decide_False by done. unfold buffer_like. simpl.
           split_and!; auto; lia.
        -- eapply Forall2_impl; [exact Hts|]. intros e t. simpl.
           case_decide; [done|]. unfold buffer_like. simpl.
           intros (? & ? & ?). split_and!; auto; lia.
      * intros [|i] [|j] ei ej ti tj Hij Hei Hej Hti Htj Hni Hnj; try lia.
        -- simpl in Hti, Hej, Htj. injection Hti as <-. simpl.
           pose proof (Forall2_lookup_lr _ _ _ _ _ _ Hts Hej Htj) as Hrel.
           simpl in Hrel. rewrite decide_False in Hrel by done.
           destruct Hrel as (_ & _ & ?). simpl in *. lia.
        -- eapply (Hinc i j); eauto. lia.
Qed.

Lemma ext_c_call_run e s :
  ext_c_call e s
  = (match ext_c_raises (world s) e with
     | Some exn => Raise exn
     | None => Ok tt
     end, {| self := self s; world := log e (world s) |}).
Proof.
  unfold ext_c_call. unfold_M. simpl. by destruct (ext_c_raises (world s) e).
Qed.

(** [broadcast] up to the verdict of the native engine. *)
Lemma broadcast_run s input bt dim split :
  get_split bt s = (Ok (Some split), s) →
  ∃ ts k es,
    let call := TpBroadcast (ext_tp_context (self s)) input bt ts dim in
    broadcast input bt dim s
    = (match ext_c_raises (world s) call with
       | Some exn => Raise exn
       | None => Ok ts
       end,
       {| self := self s; world := advance k (es ++ [call]) (world s) |}) ∧
    Forall is_alloc es ∧
    Forall2 (λ e t,
        if decide (device_index input = Some e.1.1) then t = input
        else buffer_like input e.1.1 (next_ptr (world s))
               (next_ptr (world s) + k) t) split ts ∧
    ∀ (i j : nat) ei ej ti tj,
      (i < j)%nat → split !! i = Some ei → split !! j = Some ej →
      ts !! i = Some ti → ts !! j = Some tj →
      device_index input ≠ Some ei.1.1 → device_index input ≠ Some ej.1.1 →
      (data_ptr ti < data_ptr tj)%nat.
Proof.
  intros Hsplit.
  destruct (broadcast_loop input split s) as (ts & k & es & Hloop & Hes & Hts & Hinc).
  exists ts, k, es. cbv zeta. split_and!; try done.
  unfold broadcast.
  rewrite (bind_Ok _ _ _ _ _ Hsplit).
  rewrite (bind_Ok _ _ s split s) by done.
  rewrite (bind_Ok _ _ _ _ _ Hloop).
  erewrite bind_Ok by done. cbn [self world compose].
  rewrite bind_run, ext_c_call_run. cbn [self world].
  rewrite log_advance.
  by destruct (ext_c_raises _ _).
Qed.

End collectives.

(** C8: when the native engine accepts the call, [broadcast] returns one
    tensor per entry of the selected split table, in table order.  The entry
    of the device the source tensor is on is the source tensor itself; every
    other entry is a tensor on that entry's device, of the source's shape,
    in storage that was not in use before the call and that no other output
    shares. *)
Theorem broadcast_outputs s input bt dim split :
  get_split bt s = (Ok (Some split), s) →
  (data_ptr input < next_ptr (world s))%nat →
  (∀ outs, ext_c_raises (world s)
             (TpBroadcast (ext_tp_context (self s)) input bt outs dim) = None) →
  ∃ ts s',
    broadcast input bt dim s = (Ok ts, s') ∧
    length ts = length split ∧
    (∀ (i : nat) idx a b, split !! i = Some (idx, a, b) →
       ∃ t, ts !! i = Some t ∧
            (device_index input = Some idx → t = input) ∧
            (device_index input ≠ Some idx →
               tensor_device t = Cuda idx ∧ shape t = shape input ∧
               (next_ptr (world s) ≤ data_ptr t < next_ptr (world s'))%nat ∧
               t ≠ input)) ∧
    (∀ (i j : nat) di dj ti tj,
       i ≠ j → split !! i = Some di → split !! j = Some dj →
       ts !! i = Some ti → ts !! j = Some tj →
       device_index input ≠ Some di.1.1 → device_index input ≠ Some dj.1.1 →
       data_ptr ti ≠ data_ptr tj).
Proof.
  intros Hsplit Hptr Hok.
  destruct (broadcast_run s input bt dim split Hsplit)
    as (ts & k & es & Hrun & _ & Hts & Hinc).
  cbv zeta in Hrun. rewrite Hok in Hrun.
  eexists ts, _. split; [exact Hrun|]. split_and!.
  - symmetry. by eapply Forall2_length.
  - intros i idx a b Hi.
    destruct (Forall2_lookup_l _ _ _ _ _ Hts Hi) as (t & Ht & Hrel).
    exists t. split; [done|]. simpl in *. case_decide; split; try done.
    intros _. destruct Hrel as (? & ? & ?). split_and!; try done; try lia.
    intros ->. lia.
  - intros i j di dj ti tj Hij Hdi Hdj Hti Htj Hni Hnj.
    destruct (decide (i < j)%nat).
    + pose proof (Hinc i j di dj ti tj ltac:(lia) Hdi Hdj Hti Htj Hni Hnj). lia.
    + pose proof (Hinc j i dj di tj ti ltac:(lia) Hdj Hdi Htj Hti Hnj Hni). lia.
Qed.

Lemma broadcast_outputs_witness :
  let s := (__init__ example_config (Some [3; 1]);; finalize)
             (new_object example_config example_world) in
  let x := {| data_ptr := 0; tensor_device := Cuda 1; shape := [1; 4096];
              is_pinned := false |} in
  ∃ t0 s', broadcast x BROADCAST_KV 1 s.2 = (Ok [t0; x], s') ∧
           tensor_device t0 = Cuda 0 ∧ shape t0 = [1; 4096].
Proof.
  intros s x.
  destruct (broadcast_outputs s.2 x BROADCAST_KV 1
              [(0%nat, 0, 24); (1%nat, 24, 32)])
    as (ts & s' & Hrun & Hlen & Hent & _);
    [reflexivity | vm_compute; lia | reflexivity |].
  destruct (Hent 0%nat 0%nat 0 24 eq_refl) as (t0 & Ht0 & _ & Hfresh).
  destruct (Hent 1%nat 1%nat 24 32 eq_refl) as (t1 & Ht1 & Hsame & _).
  destruct Hfresh as (Hdev & Hshape & _); [done|].
  rewrite (Hsame eq_refl) in Ht1.
  destruct ts as [|a [|b [|? ?]]]; try done.
  simpl in Ht0, Ht1. injection Ht0 as ->. injection Ht1 as ->.
  by exists t0, s'.
Defined.

Section before_finalize.

Lemma wait_loop (registry : gmap nat Z) : ∀ (split : SplitTable) s,
  Forall (λ d, is_Some (registry !! d)) (devices_of split) →
  ∃ us,
    for_each (λ '(dev, _, _),
        match registry !! dev with
        | Some _ => modify_world (log (StreamSynchronize dev))
        | None => raise KeyError
        end) split s
    = (Ok us, {| self := self s;
                 world := advance 0 (StreamSynchronize <$> devices_of split)
                            (world s) |}).
Proof.
  induction split as [|[[dev a] b] split IH]; intros s Hreg.
  - exists []. simpl. rewrite advance_0. by destruct s.
  - simpl in Hreg. inversion_clear Hreg as [|? ? [st Hst] Hreg'].
    rewrite for_each_cons, Hst.
    destruct (IH {| self := self s;
                    world := log (StreamSynchronize dev) (world s) |} Hreg')
      as (us & Hrun).
    exists (tt :: us).
    erewrite bind_Ok by done. rewrite (bind_Ok _ _ _ _ _ Hrun).
    cbn [self world]. simpl.
    rewrite <- (advance_0 (world s)) at 1.
    by rewrite log_advance, advance_advance.
Qed.


Lemma residual_loop target source dim : ∀ (split : SplitTable) (f : nat → _ → _) i0 s,
  (∀ i e, f i e = ((i0 + i)%nat, e)) →
  (i0 + length split ≤ length target)%nat →
  (i0 + length split ≤ length source)%nat →
  Forall (residual_fits dim)
    (zip split (zip (drop i0 target) (drop i0 source))) →
  ∃ us,
    for_each (λ '(idx, (dev, a, b)),
        modify_world (log (SetStream dev));;
        t ← lift (getitem target idx);
        s ← lift (getitem source idx);
        piece ← lift (slice_columns (a * dim) (b * dim) s);
        lift (add_ t piece);;
        modify_world (log (AddInPlace t s (a * dim) (b * dim))))
      (imap f split) s
    = (Ok us, {| self := self s;
                 world := advance 0
                   (residual_events (drop i0 target) (drop i0 source) dim split)
                   (world s) |}).
Proof.
  induction split as [|[[dev a] b] split IH]; intros f i0 s Hf Ht Hs Hfit.
  - exists []. simpl. unfold residual_events. simpl.
    rewrite advance_0. by destruct s.
  - simpl in Ht, Hs.
    destruct (lookup_lt_is_Some_2 target i0) as [t Htg]; [lia|].
    destruct (lookup_lt_is_Some_2 source i0) as [src Hsrc]; [lia|].
    rewrite (drop_S target t i0 Htg), (drop_S source src i0 Hsrc) in Hfit.
    simpl in Hfit. apply Forall_cons in Hfit as [(piece & Hpiece & Hadd) Hfit].
    rewrite imap_cons, for_each_cons, Hf, Nat.add_0_r.
    set (s1 := {| self := self s;
                  world := advance 0 [SetStream dev;
                             AddInPlace t src (a * dim) (b * dim)] (world s) |}).
    destruct (IH (f ∘ S) (S i0) s1) as (us & Hrun); [|lia..|done|].
    { intros i e. unfold compose. rewrite Hf. f_equal. lia. }
    exists (tt :: us).
    assert ((modify_world (log (SetStream dev));;
             t ← lift (getitem target i0);
             s ← lift (getitem source i0);
             piece ← lift (slice_columns (a * dim) (b * dim) s);
             lift (add_ t piece);;
             modify_world (log (AddInPlace t s (a * dim) (b * dim)))) s
            = (Ok tt, s1)) as Hbody.
    { erewrite bind_Ok by done.
      rewrite (bind_Ok _ _ _ t _) by (unfold lift, getitem; by rewrite Htg).
      rewrite (bind_Ok _ _ _ src _) by (unfold lift, getitem; by rewrite Hsrc).
      rewrite (bind_Ok _ _ _ piece _) by (unfold lift; by rewrite Hpiece).
      rewrite (bind_Ok _ _ _ tt _) by (unfold lift; by rewrite Hadd).
      unfold_M. cbn [self world]. unfold s1. do 2 f_equal.
      rewrite <- (advance_0 (world s)) at 1. by rewrite !log_advance. }
    rewrite (bind_Ok _ _ _ _ _ Hbody), (bind_Ok _ _ _ _ _ Hrun).
    unfold s1. cbn [self world]. rewrite advance_advance.
    rewrite (drop_S target t i0 Htg), (drop_S source src i0 Hsrc).
    done.
Qed.


(** [gather] hands the stored handle to the native engine before anything
    else; without a pinned buffer it cannot return a tensor. *)
Lemma gather_run s inputs bt dim o :
  get_split bt s = (Ok o, s) →
  let call := TpGather (ext_tp_context (self s)) inputs bt none_tensor dim in
  ∃ r,
    gather inputs bt dim s
    = (r, {| self := self s; world := log call (world s) |}) ∧
    (∀ e, ext_c_raises (world s) call = Some e → r = Raise e) ∧
    (pinned_temp (self s) = None → ∀ t, r ≠ Ok t).
Proof.
  intros Hsplit call. unfold gather.
  rewrite (bind_Ok _ _ _ _ _ Hsplit).
  erewrite bind_Ok by done. cbn [self world compose].
  rewrite bind_run, ext_c_call_run. fold call.
  destruct (ext_c_raises (world s) call) as [e|] eqn:Hcall.
  { eexists. split; [done|]. split; [by intros ? [= <-]|done]. }
  unfold_M. cbn [self world].
  destruct (not_none o) as [split|]; [|eexists; by split_and!].
  destruct (getitem_last split) as [[[? ?] total]|]; [|eexists; by split_and!].
  destruct (getitem inputs 0) as [first|]; [|eexists; by split_and!].
  destruct (getitem (shape first) 0) as [rows|]; [|eexists; by split_and!].
  simpl.
  destruct (pinned_temp (self s)) as [pinned|]; simpl;
    [|eexists; by split_and!].
  destruct (slice_to _ pinned) as [pt|]; [|eexists; by split_and!].
  eexists. by split_and!.
Qed.

End before_finalize.




(** * Further properties of the code *)

(** ** Axis kinds *)

Lemma bind_Raise {A B} (m : M A) (f : A → M B) s e s' :
  m s = (Raise e, s') → (m ≫= f) s = (Raise e, s').
Proof. intros H. by rewrite bind_run, H. Qed.

(** X1: an axis kind other than the five constants makes [get_split] raise
    [ValueError], and with it every operation that starts by looking up the
    table: [broadcast], [gather], [add_residual] and [wait_streams] raise
    [ValueError] before they allocate, log or issue anything; the state is
    left as it was. *)
Theorem unknown_kind_raises s bt :
  bt < 0 ∨ 4 < bt →
  get_split bt s = (Raise ValueError, s) ∧
  (∀ input dim, broadcast input bt dim s = (Raise ValueError, s)) ∧
  (∀ inputs dim, gather inputs bt dim s = (Raise ValueError, s)) ∧
  (∀ target source dim,
     add_residual target source bt dim s = (Raise ValueError, s)) ∧
  wait_streams bt s = (Raise ValueError, s).
Proof.
  intros Hbt.
  assert (get_split bt s = (Raise ValueError, s)) as Hget.
  { unfold get_split, BROADCAST_KV, BROADCAST_ID, BROADCAST_VC, BROADCAST_RS,
      BROADCAST_Q. unfold_M. repeat case_decide; try lia. by destruct s. }
  split_and!; try done; intros; by apply bind_Raise.
Qed.

Lemma unknown_kind_raises_witness :
  let s := (__init__ example_config (Some [3; 1])
              (new_object example_config example_world)).2 in
  wait_streams 5 s = (Raise ValueError, s) ∧
  broadcast none_tensor (-1) 1 s = (Raise ValueError, s).
Proof.
  intros s. split.
  - apply (unknown_kind_raises s 5). lia.
  - apply (unknown_kind_raises s (-1)). lia.
Defined.

(** ** The table of a raw split *)

Lemma split_from_last raw : ∀ d b d' a e,
  last (split_from d b raw) = Some (d', a, e) → e = b + sum_Z raw.
Proof.
  induction raw as [|s raw IH]; intros d b d' a e; simpl; [done|].
  case_decide as Hs.
  - destruct (split_from (S d) (b + s) raw) as [|x rest] eqn:Hrest.
    + intros [= <- <- <-].
      pose proof (split_from_lengths raw (S d) (b + s)) as Hlen.
      rewrite Hrest in Hlen. simpl in Hlen. lia.
    + rewrite last_cons_cons, <- Hrest. intros Hl%IH. lia.
  - intros Hl%IH. lia.
Qed.

(** X2: what [set_split] makes of any list of allocations.  The table
    lists, in increasing device order, exactly the devices whose allocation
    is not zero; the entry of device [d] starts at the sum of the
    allocations before [d] and is as long as the allocation of [d]; and
    the end of the last entry is the sum of all allocations. *)
Theorem set_split_entries raw :
  StronglySorted lt (devices_of (set_split raw)) ∧
  (∀ d a e,
     (d, a, e) ∈ set_split raw ↔
     ∃ s, raw !! d = Some s ∧ s ≠ 0 ∧ a = sum_Z (take d raw) ∧ e = a + s) ∧
  (∀ d a e, last (set_split raw) = Some (d, a, e) → e = sum_Z raw) ∧
  (set_split raw = [] ↔ Forall (λ s, s = 0) raw).
Proof.
  rewrite set_split_unfold. split_and!.
  - apply split_from_sorted.
  - intros d a e. rewrite split_from_elem. split.
    + intros (i & s & ? & ? & -> & -> & ->). exists s. split_and!; auto; lia.
    + intros (s & ? & ? & -> & ->). exists d, s. split_and!; auto; lia.
  - intros d a e Hl%split_from_last. lia.
  - split.
    + intros Hnil. apply Forall_forall. intros s [i Hi]%list_elem_of_lookup_1.
      destruct (decide (s = 0)) as [|Hs]; [done|]. exfalso.
      apply (elem_of_nil (A := nat * Z * Z)
               (i, 0 + sum_Z (take i raw), 0 + sum_Z (take i raw) + s)).
      rewrite <- Hnil. apply split_from_elem. exists i, s. split_and!; auto.
    + intros Hz. apply elem_of_nil_inv. intros [[d a] e] Hin.
      apply split_from_elem in Hin as (i & s & Hi & Hs & _).
      apply Hs. by apply (proj1 (Forall_forall _ _) Hz s),
        list_elem_of_lookup_2 with i.
Qed.

(** ** What planning leaves alone *)

(** X3: [define_split] assigns the five tables and the primary device and
    nothing else.  Whether it returns or raises, the world, the model
    configuration, the staging buffers, the streams and the engine handle
    are what they were: re-planning a finalized context does not touch what
    [finalize] built. *)
Theorem define_split_frame gpu_split s r s' :
  define_split gpu_split s = (r, s') →
  world s' = world s ∧
  model_config (self s') = model_config (self s) ∧
  pinned_temp (self s') = pinned_temp (self s) ∧
  device_temp (self s') = device_temp (self s) ∧
  streams (self s') = streams (self s) ∧
  ext_tp_context (self s') = ext_tp_context (self s).
Proof.
  unfold define_split. unfold_M.
  destruct gpu_split as [g|]; simpl;
    repeat (case_match; simpl; try (intros [= <- <-]; by split_and!)).
Qed.

Lemma define_split_frame_witness :
  let s := ((__init__ example_config (Some [3; 1]);; finalize)
              (new_object example_config example_world)).2 in
  let s' := (define_split (Some [1; 1]) s).2 in
  kv_split (self s') = Some [(0%nat, 0, 16); (1%nat, 16, 32)] ∧
  ext_tp_context (self s') = Some 0%nat ∧
  device_temp (self s') = device_temp (self s).
Proof.
  intros s s'.
  destruct (define_split_frame (Some [1; 1]) s
              (define_split (Some [1; 1]) s).1 s') as (_ & _ & _ & Hd & _ & Hh).
  { unfold s'. by destruct (define_split (Some [1; 1]) s). }
  split; [vm_compute; reflexivity|].
  split; [rewrite Hh; vm_compute; reflexivity|exact Hd].
Defined.

(** X4: when [define_split] returns, the primary device it stores is the
    first and lowest id of [all_devices()]: every other participating
    device has a larger id. *)
Theorem primary_device_is_lowest gpu_split s s' :
  define_split gpu_split s = (Ok tt, s') →
  ∃ d devs,
    device (self s') = Some d ∧
    all_devices (self s') = Ok (d :: devs) ∧
    Forall (λ d', (d < d')%nat) devs.
Proof.
  unfold define_split. unfold_M.
  destruct gpu_split as [g|]; simpl;
    repeat (case_match; simpl; try (intros [= <-]; done));
    intros [= <-]; simpl;
    match goal with
    | H : getitem (sorted ?X) 0 = Ok ?d |- _ =>
        pose proof (sorted_StronglySorted X) as Hs;
        unfold getitem in H; unfold all_devices; simpl;
        destruct (sorted X) as [|d0 devs]; [done|];
        simpl in H; injection H as Heq; subst;
        apply StronglySorted_cons in Hs as [? _];
        by eexists _, devs
    end.
Qed.

Lemma primary_device_is_lowest_witness :
  let s := new_object example_config example_world in
  (define_split (Some [0; 3; 1]) s).1 = Ok tt ∧
  ∃ devs, device (self (define_split (Some [0; 3; 1]) s).2) = Some 1%nat ∧
          all_devices (self (define_split (Some [0; 3; 1]) s).2)
          = Ok (1%nat :: devs).
Proof.
  intros s. split; [reflexivity|].
  destruct (primary_device_is_lowest (Some [0; 3; 1]) s
              (define_split (Some [0; 3; 1]) s).2)
    as (d & devs & Hd & Hdevs & _); [reflexivity|].
  exists devs. assert (d = 1%nat) as <-; [|by split].
  apply (inj Some). rewrite <- Hd. reflexivity.
Defined.

(** ** Default weights *)

Lemma foldl_insert_lookup (l : list (nat * Z)) : ∀ (init : list Z) (k : nat),
  NoDup l.*1 →
  (∀ k' v, (k', v) ∈ l → (k' < length init)%nat) →
  foldl (λ gpu_split '(k, v), <[k := v]> gpu_split) init l !! k
  = match list_to_map (M := gmap nat Z) l !! k with
    | Some v => Some v
    | None => init !! k
    end.
Proof.
  induction l as [|[k0 v0] l IH]; intros init k Hnd Hlt; simpl; [done|].
  apply NoDup_cons in Hnd as [Hk0 Hnd].
  rewrite IH; [|done|].
  - destruct (decide (k = k0)) as [->|Hne].
    + rewrite lookup_insert_eq.
      rewrite (not_elem_of_list_to_map_1 (M := gmap nat) l k0 Hk0).
      apply list_lookup_insert_eq, (Hlt k0 v0). left.
    + rewrite lookup_insert_ne by done.
      by rewrite list_lookup_insert_ne.
  - intros k' v Hin. rewrite length_insert. apply (Hlt k' v). by right.
Qed.

(** X5: the default weight vector built from a non-empty memory inventory
    has one entry for each id from 0 to the largest listed device; the
    entry of a listed device is its free memory and the entry of an id the
    inventory skips is 0. *)
Theorem free_memory_split_lookup (gpu_memory : gmap nat Z) :
  gpu_memory ≠ ∅ →
  ∃ l top,
    free_memory_split gpu_memory = Ok l ∧
    length l = S top ∧
    is_Some (gpu_memory !! top) ∧
    (∀ k, is_Some (gpu_memory !! k) → (k ≤ top)%nat) ∧
    (∀ k : nat, (k ≤ top)%nat → l !! k = Some (default 0 (gpu_memory !! k))).
Proof.
  intros Hne. unfold free_memory_split.
  assert ((map_to_list gpu_memory).*1 ≠ []) as Hkeys.
  { intros E. apply Hne, map_to_list_empty_iff.
    by destruct (map_to_list gpu_memory). }
  destruct (python_max_spec _ Hkeys) as (top & -> & Htop & Hmax).
  assert (∀ k, is_Some (gpu_memory !! k) ↔ k ∈ (map_to_list gpu_memory).*1)
    as Hdom.
  { intros k. rewrite list_elem_of_fmap. split.
    - intros [v Hv]. exists (k, v). by rewrite elem_of_map_to_list.
    - intros ([k' v] & -> & Hin%elem_of_map_to_list). by exists v. }
  eexists _, top. split; [done|].
  assert (∀ k' v, (k', v) ∈ map_to_list gpu_memory →
                  (k' < length (replicate (top + 1) 0%Z))%nat) as Hlt.
  { intros k' v Hin. rewrite length_replicate.
    assert (k' ≤ top)%nat; [|lia].
    apply Hmax, list_elem_of_fmap. by exists (k', v). }
  split_and!.
  - assert (∀ (l : list (nat * Z)) (init : list Z),
              length (foldl (λ gpu_split '(k, v), <[k := v]> gpu_split) init l)
              = length init) as Hlen.
    { induction l as [|[k v] l IH]; intros init; simpl; [done|].
      by rewrite IH, length_insert. }
    rewrite Hlen, length_replicate. lia.
  - by apply Hdom.
  - intros k Hk. by apply Hmax, Hdom.
  - intros k Hk.
    rewrite foldl_insert_lookup; [|apply NoDup_fst_map_to_list|exact Hlt].
    rewrite list_to_map_to_list.
    destruct (gpu_memory !! k); simpl; [done|].
    apply lookup_replicate_2. lia.
Qed.

Lemma free_memory_split_lookup_witness :
  ∃ l, free_memory_split {[ 0%nat := 3; 2%nat := 1 ]} = Ok l ∧
       l !! 1%nat = Some 0 ∧ l !! 2%nat = Some 1.
Proof.
  destruct (free_memory_split_lookup {[ 0%nat := 3; 2%nat := 1 ]})
    as (l & top & Hrun & _ & _ & Hmax & Hl).
  { intros E. apply (f_equal (λ m : gmap nat Z, m !! 0%nat)) in E.
    vm_compute in E. discriminate. }
  assert (2 ≤ top)%nat as Htop by (apply Hmax; by eexists).
  exists l. split; [exact Hrun|].
  split; [rewrite (Hl 1%nat) by lia|rewrite (Hl 2%nat) by lia]; reflexivity.
Defined.

(** X6: without a weight vector and with an empty memory inventory,
    [define_split] raises [ValueError] (the [max] of no keys) before it
    plans anything; the object keeps the tables it had. *)
Theorem define_split_empty_inventory s :
  get_all_gpu_memory (world s) = ∅ →
  define_split None s = (Raise ValueError, s).
Proof.
  intros Hinv. unfold define_split.
  rewrite (bind_Ok _ _ s (model_config (self s)) s) by done.
  apply bind_Raise. unfold_M. simpl. rewrite Hinv.
  unfold free_memory_split. by rewrite map_to_list_empty.
Qed.

Lemma define_split_empty_inventory_witness :
  let w := {| get_all_gpu_memory := ∅; global_streams := ∅;
              next_ptr := 1; next_context := 0; live_contexts := ∅;
              ext_c_raises := λ _, None; issued := [] |} in
  __init__ example_config None (new_object example_config w)
  = (Raise ValueError, new_object example_config w).
Proof.
  intros w. unfold __init__. simpl.
  rewrite (bind_Ok _ _ _ tt (new_object example_config w)) by done.
  by apply define_split_empty_inventory.
Defined.

(** ** What the collectives leave alone *)

Section frame.

Lemma untouched_refl s : untouched s s.
Proof. unfold untouched. split_and!; try done. exists []. by rewrite app_nil_r. Qed.

Lemma untouched_trans s1 s2 s3 :
  untouched s1 s2 → untouched s2 s3 → untouched s1 s3.
Proof.
  intros (? & ? & ? & ? & ? & ? & ? & es1 & ?) (? & ? & ? & ? & ? & ? & ? & es2 & ?).
  unfold untouched. split_and!; try congruence; [lia|].
  exists (es1 ++ es2). rewrite app_assoc. congruence.
Qed.

Lemma leaves_pure {A} (m : M A) :
  (∀ s, ∃ r, m s = (r, s)) → leaves_context m.
Proof.
  intros Hm s r s' Hrun. destruct (Hm s) as [r' Hr].
  rewrite Hr in Hrun. injection Hrun as _ <-. apply untouched_refl.
Qed.

Lemma leaves_bind {A B} (m : M A) (f : A → M B) :
  leaves_context m → (∀ a, leaves_context (f a)) → leaves_context (m ≫= f).
Proof.
  intros Hm Hf s r s' Hrun. rewrite bind_run in Hrun.
  destruct (m s) as [[a|e] s1] eqn:Hms.
  - eapply untouched_trans; [by eapply Hm|by eapply Hf].
  - injection Hrun as _ <-. by eapply Hm.
Qed.

Lemma leaves_log e : leaves_context (modify_world (log e)).
Proof.
  intros s r s' [= _ <-]. unfold untouched. simpl.
  split_and!; try done. by exists [e].
Qed.

Lemma leaves_torch_empty shp dev pin : leaves_context (torch_empty shp dev pin).
Proof.
  intros s r s'. rewrite torch_empty_run. intros [= _ <-].
  unfold untouched. simpl. split_and!; try done; [lia|by eexists].
Qed.

Lemma leaves_ext_c_call e : leaves_context (ext_c_call e).
Proof.
  intros s r s'. rewrite ext_c_call_run. intros [= _ <-].
  unfold untouched. simpl. split_and!; try done. by exists [e].
Qed.

Lemma leaves_for_each {A B} (f : A → M B) l :
  (∀ x, leaves_context (f x)) → leaves_context (for_each f l).
Proof.
  intros Hf. induction l as [|x l IH].
  - by apply leaves_pure; eexists.
  - rewrite for_each_cons. apply leaves_bind; [done|]. intros y.
    apply leaves_bind; [done|]. intros ys. by apply leaves_pure; eexists.
Qed.

Lemma leaves_get_split bt : leaves_context (get_split bt).
Proof.
  apply leaves_pure. intros s.
  destruct (get_split_run bt s) as (r & Hr & _). by exists r.
Qed.

End frame.

Ltac leaves :=
  repeat first
    [ apply leaves_get_split
    | apply leaves_log
    | apply leaves_ext_c_call
    | apply leaves_torch_empty
    | apply leaves_for_each; intros
    | apply leaves_bind; [|intros]
    | by apply leaves_pure; eexists
    | progress case_match
    | progress (unfold torch_empty_like) ].

(** X7: no collective changes the context.  Whatever [get_split],
    [broadcast], [gather], [copy_pinned], [add_residual] and [wait_streams]
    return or raise, the object's attributes, the stream and memory
    registries and the set of native contexts are what they were; storage
    is only taken, never given back, and the work issued before stays
    issued. *)
Theorem collectives_leave_context bt dim :
  leaves_context (get_split bt) ∧
  (∀ input, leaves_context (broadcast input bt dim)) ∧
  (∀ inputs, leaves_context (gather inputs bt dim)) ∧
  (∀ inputs, leaves_context (copy_pinned inputs)) ∧
  (∀ target source, leaves_context (add_residual target source bt dim)) ∧
  leaves_context (wait_streams bt).
Proof.
  split_and!; intros; unfold broadcast, gather, copy_pinned, add_residual,
    wait_streams; leaves.
Qed.

(** ** Finalizing *)

Section finalize_more.

Lemma streams_loop_fails (registry : gmap nat Z) : ∀ l s,
  Exists (λ idx, registry !! idx = None) l →
  for_each (λ idx : nat,
      match registry !! idx with
      | Some st => mret st
      | None => raise KeyError
      end) l s = (Raise KeyError, s).
Proof.
  induction l as [|idx l IH]; intros s Hl; [by apply Exists_nil in Hl|].
  rewrite for_each_cons.
  destruct (registry !! idx) as [st|] eqn:Hst.
  - apply Exists_cons in Hl as [Hl|Hl]; [congruence|].
    rewrite (bind_Ok _ _ s st s) by done.
    by apply bind_Raise, IH.
  - by apply bind_Raise.
Qed.

(** [finalize] up to the point where it looks up the streams. *)
Lemma finalize_staging s devs :
  all_devices (self s) = Ok devs → devs ≠ [] →
  ∃ m ts k es,
    let pinned := {| data_ptr := next_ptr (world s); tensor_device := Cpu;
                     shape := [staging_size (model_config (self s))];
                     is_pinned := true |} in
    let s2 := {| self := set_device_temp ts (set_pinned_temp pinned (self s));
                 world := advance (1 + k) (TorchEmpty pinned :: es) (world s) |} in
    python_max devs = Ok m ∧ length ts = S m ∧ Forall is_alloc es ∧
    finalize s
    = (strms ← for_each (λ idx : nat,
                  match global_streams (world s) !! idx with
                  | Some st => mret st
                  | None => raise KeyError
                  end) devs;
       modify_self (set_streams strms);;
       h ← make_tp_context;
       modify_self (set_ext_tp_context (Some h))) s2.
Proof.
  intros Hdevs Hne.
  destruct (python_max_spec devs Hne) as (m & Hm & _).
  set (pinned := {| data_ptr := next_ptr (world s); tensor_device := Cpu;
                    shape := [staging_size (model_config (self s))];
                    is_pinned := true |}).
  set (s1 := {| self := set_pinned_temp pinned (self s);
                world := advance 1 [TorchEmpty pinned] (world s) |}).
  destruct (device_temp_loop devs pinned (seq 0 (m + 1)) s1)
    as (ts & k & es & Hloop & Hes & Hts).
  exists m, ts, k, es. cbv zeta. fold pinned. split_and!; try done.
  { apply Forall2_length in Hts. rewrite length_seq in Hts. lia. }
  unfold finalize.
  rewrite (bind_Ok _ _ s (model_config (self s)) s) by done.
  erewrite bind_Ok; [|apply torch_empty_run]. cbv zeta.
  fold (staging_size (model_config (self s))). fold pinned.
  rewrite (bind_Ok _ _ _ tt s1) by done.
  rewrite (bind_Ok _ _ s1 (self s1) s1) by done.
  rewrite (bind_Ok _ _ s1 devs s1) by (unfold lift; by rewrite <- Hdevs).
  rewrite (bind_Ok _ _ s1 m s1) by (unfold lift; by rewrite <- Hm).
  rewrite (bind_Ok _ _ _ _ _ Hloop).
  set (s2 := {| self := set_device_temp ts (self s1);
                world := advance k es (world s1) |}).
  rewrite (bind_Ok _ _ _ tt s2) by done.
  rewrite (bind_Ok _ _ s2 (self s2) s2) by done.
  rewrite (bind_Ok _ _ s2 devs s2) by (unfold lift; by rewrite <- Hdevs).
  rewrite (bind_Ok _ _ s2 (global_streams (world s2)) s2) by done.
  unfold s2, s1. cbn [self world]. by rewrite advance_advance.
Qed.

End finalize_more.

(** X8: [finalize] is not atomic.  When a participating device has no
    stream in the registry it raises [KeyError] after the pinned buffer and
    the per-device buffers have been allocated and stored, and before any
    native context is made: the streams and the engine handle of the object
    are what they were. *)
Theorem finalize_missing_stream s kv id vc d :
  kv_split (self s) = Some kv → id_split (self s) = Some id →
  vc_split (self s) = Some vc →
  d ∈ devices_of kv ∨ d ∈ devices_of id ∨ d ∈ devices_of vc →
  global_streams (world s) !! d = None →
  ∃ s' pinned ts,
    finalize s = (Raise KeyError, s') ∧
    pinned_temp (self s') = Some pinned ∧
    data_ptr pinned = next_ptr (world s) ∧
    device_temp (self s') = Some ts ∧
    (next_ptr (world s) < next_ptr (world s'))%nat ∧
    streams (self s') = streams (self s) ∧
    ext_tp_context (self s') = ext_tp_context (self s) ∧
    next_context (world s') = next_context (world s) ∧
    live_contexts (world s') = live_contexts (world s).
Proof.
  intros Hkv Hid Hvc Hd Hnone.
  destruct (all_devices_spec (self s) kv id vc Hkv Hid Hvc)
    as (devs & Hdevs & _ & Hin).
  apply Hin in Hd.
  assert (devs ≠ []) as Hne by (intros ->; by apply elem_of_nil in Hd).
  destruct (finalize_staging s devs Hdevs Hne)
    as (m & ts & k & es & _ & _ & _ & Hrun).
  cbv zeta in Hrun. eexists _, _, ts. split.
  - rewrite Hrun. apply bind_Raise, streams_loop_fails.
    apply Exists_exists. by exists d.
  - simpl. split_and!; try done. lia.
Qed.

Lemma finalize_missing_stream_witness :
  let w := {| get_all_gpu_memory := ∅; global_streams := {[ 0%nat := 100 ]};
              next_ptr := 1; next_context := 0; live_contexts := ∅;
              ext_c_raises := λ _, None; issued := [] |} in
  let s := (__init__ example_config (Some [3; 1])
              (new_object example_config w)).2 in
  ∃ s', finalize s = (Raise KeyError, s') ∧
        is_Some (device_temp (self s')) ∧
        ext_tp_context (self s') = None.
Proof.
  intros w s.
  destruct (finalize_missing_stream s [(0%nat, 0, 24); (1%nat, 24, 32)]
              [(0%nat, 0, 3072); (1%nat, 3072, 4096)]
              [(0%nat, 0, 24000); (1%nat, 24000, 32000)] 1%nat)
    as (s' & p & ts & Hrun & _ & _ & Hts & _ & _ & Hh & _);
    [reflexivity..| |reflexivity|].
  { left. apply list_elem_of_In. simpl. tauto. }
  exists s'. split; [exact Hrun|]. split; [by eexists|]. by rewrite Hh.
Defined.

(** X9: on a context whose key/value, intermediate and vocabulary tables
    are all empty, [finalize] raises [ValueError] (the [max] of no device)
    after it has allocated and stored the pinned buffer, and does nothing
    else. *)
Theorem finalize_no_device s :
  kv_split (self s) = Some [] → id_split (self s) = Some [] →
  vc_split (self s) = Some [] →
  let pinned := {| data_ptr := next_ptr (world s); tensor_device := Cpu;
                   shape := [staging_size (model_config (self s))];
                   is_pinned := true |} in
  finalize s
  = (Raise ValueError,
     {| self := set_pinned_temp pinned (self s);
        world := advance 1 [TorchEmpty pinned] (world s) |}).
Proof.
  intros Hkv Hid Hvc pinned.
  set (s1 := {| self := set_pinned_temp pinned (self s);
                world := advance 1 [TorchEmpty pinned] (world s) |}).
  unfold finalize.
  rewrite (bind_Ok _ _ s (model_config (self s)) s) by done.
  erewrite bind_Ok; [|apply torch_empty_run]. cbv zeta.
  fold (staging_size (model_config (self s))). fold pinned.
  rewrite (bind_Ok _ _ _ tt s1) by done.
  rewrite (bind_Ok _ _ s1 (self s1) s1) by done.
  rewrite (bind_Ok _ _ s1 [] s1).
  - by apply bind_Raise.
  - unfold lift, all_devices, s1. simpl. by rewrite Hkv, Hid, Hvc.
Qed.

Lemma finalize_no_device_witness :
  let cfg := {| supports_tp := true;
                num_key_value_heads := 0; num_key_value_groups := 1;
                intermediate_size := 0; vocab_size := 0; hidden_size := 0;
                max_input_len := 16; max_output_len := None |} in
  let r := define_split (Some [1]) (new_object cfg example_world) in
  r.1 = Raise IndexError ∧
  (finalize r.2).1 = Raise ValueError ∧
  is_Some (pinned_temp (self (finalize r.2).2)) ∧
  device_temp (self (finalize r.2).2) = None.
Proof.
  intros cfg r. split; [reflexivity|].
  rewrite (finalize_no_device r.2); [|reflexivity..].
  split; [done|]. split; [by eexists|done].
Defined.

(** X10: a successful [finalize] stores one stream per participating
    device, in the order of [all_devices()], each the registry's stream for
    that device; the last thing it issues is the construction of the native
    context, with exactly the tables, buffers and streams the object then
    holds, and the tables are the ones it had before. *)
Theorem finalize_configures_engine s kv id vc :
  kv_split (self s) = Some kv → id_split (self s) = Some id →
  vc_split (self s) = Some vc →
  kv ≠ [] ∨ id ≠ [] ∨ vc ≠ [] →
  (∀ d, d ∈ devices_of kv ∨ d ∈ devices_of id ∨ d ∈ devices_of vc →
        is_Some (global_streams (world s) !! d)) →
  ∃ s' devs strms h,
    finalize s = (Ok tt, s') ∧
    all_devices (self s) = Ok devs ∧
    streams (self s') = Some strms ∧
    Forall2 (λ d st, global_streams (world s) !! d = Some st) devs strms ∧
    ext_tp_context (self s') = Some h ∧
    last (issued (world s'))
    = Some (MakeTpContext h (kv_split (self s')) (id_split (self s'))
              (vc_split (self s')) (rs_split (self s')) (q_split (self s'))
              (pinned_temp (self s')) (device_temp (self s'))
              (streams (self s'))) ∧
    kv_split (self s') = Some kv ∧ id_split (self s') = Some id ∧
    vc_split (self s') = Some vc ∧
    rs_split (self s') = rs_split (self s) ∧
    q_split (self s') = q_split (self s) ∧
    device (self s') = device (self s).
Proof.
  intros Hkv Hid Hvc Hne Hreg.
  destruct (participants s kv id vc Hkv Hid Hvc Hne Hreg)
    as (devs & Hdevs & Hdne & Hregd & _).
  destruct (finalize_run s devs Hdevs Hdne Hregd)
    as (m & ts & strms & k & es & _ & Hrun & _ & _ & Hstr).
  eexists _, devs, strms, _. split; [exact Hrun|]. simpl.
  split_and!; try done. by rewrite last_snoc.
Qed.

Lemma finalize_configures_engine_witness :
  let s := (__init__ example_config (Some [3; 1])
              (new_object example_config example_world)).2 in
  ∃ s', finalize s = (Ok tt, s') ∧ streams (self s') = Some [100; 101].
Proof.
  intros s.
  destruct (finalize_configures_engine s [(0%nat, 0, 24); (1%nat, 24, 32)]
              [(0%nat, 0, 3072); (1%nat, 3072, 4096)]
              [(0%nat, 0, 24000); (1%nat, 24000, 32000)])
    as (s' & devs & strms & h & Hrun & Hdevs & Hs & Hstr & _);
    [reflexivity|reflexivity|reflexivity|by left| |].
  { intros d Hd.
    assert (d = 0%nat ∨ d = 1%nat) as [-> | ->]; [|by eexists..].
    destruct Hd as [Hd|[Hd|Hd]]; apply list_elem_of_In in Hd; simpl in Hd;
      intuition. }
  exists s'. split; [exact Hrun|]. rewrite Hs. f_equal.
  vm_compute in Hdevs. injection Hdevs as <-.
  apply Forall2_cons_inv_l in Hstr as (s0 & rest & H0 & Hstr & ->).
  apply Forall2_cons_inv_l in Hstr as (s1 & rest' & H1 & Hstr & ->).
  apply Forall2_nil_inv_l in Hstr as ->.
  vm_compute in H0, H1. by injection H0 as <-; injection H1 as <-.
Defined.

(** X11: with an [unload] in between, finalizing again does not leak.
    After [finalize], [unload], [finalize] on a context that held no handle,
    the object holds the second context's handle and the live native
    contexts are those of before plus that one; the first context has been
    freed. *)
Theorem finalize_unload_finalize s kv id vc :
  kv_split (self s) = Some kv → id_split (self s) = Some id →
  vc_split (self s) = Some vc →
  kv ≠ [] ∨ id ≠ [] ∨ vc ≠ [] →
  (∀ d, d ∈ devices_of kv ∨ d ∈ devices_of id ∨ d ∈ devices_of vc →
        is_Some (global_streams (world s) !! d)) →
  (∀ h, h ∈ live_contexts (world s) → (h < next_context (world s))%nat) →
  ∃ s3 h1 h2,
    (finalize;; (unload;; finalize)) s = (Ok tt, s3) ∧
    h1 ≠ h2 ∧
    ext_tp_context (self s3) = Some h2 ∧
    live_contexts (world s3) = {[h2]} ∪ live_contexts (world s) ∧
    (h1 ∉ live_contexts (world s3)) ∧
    FreeTpContext h1 ∈ issued (world s3).
Proof.
  intros Hkv Hid Hvc Hne Hreg Hfresh.
  destruct (finalize_effects s kv id vc Hkv Hid Hvc Hne Hreg)
    as (s1 & p1 & es1 & Hrun1 & Hkv1 & Hid1 & Hvc1 & Hreg1 & Hh1 & Hn1 & Hl1
        & _ & _ & _ & Hes1 & _).
  pose proof (unload_run s1) as Hun. rewrite Hh1 in Hun.
  set (h1 := next_context (world s)) in *.
  set (s2 := {| self := set_ext_tp_context None (self s1);
                world := log (FreeTpContext h1)
                           (set_contexts (next_context (world s1))
                              (live_contexts (world s1) ∖ {[h1]}) (world s1)) |})
    in *.
  destruct (finalize_effects s2 kv id vc Hkv1 Hid1 Hvc1 Hne)
    as (s3 & p3 & es3 & Hrun3 & _ & _ & _ & _ & Hh3 & _ & Hl3
        & _ & _ & _ & Hes3 & _).
  { intros d Hd. simpl. rewrite Hreg1. by apply Hreg. }
  exists s3, h1, (S h1).
  rewrite (bind_Ok _ _ _ _ _ Hrun1), (bind_Ok _ _ _ _ _ Hun).
  simpl in Hh3, Hl3, Hes3. rewrite Hn1 in Hh3, Hl3.
  assert (h1 ∉ live_contexts (world s)) as Hnotin.
  { intros Hin%Hfresh. unfold h1 in Hin. lia. }
  assert (live_contexts (world s1) ∖ {[h1]} = live_contexts (world s)) as Hback.
  { rewrite Hl1. apply set_eq. intros x.
    rewrite elem_of_difference, elem_of_union, !elem_of_singleton.
    split; [by intros [[->|?] ?]|]. intros Hx. split; [by right|].
    by intros ->. }
  rewrite Hback in Hl3.
  split_and!; try done.
  - rewrite Hl3, elem_of_union, elem_of_singleton. intros [?|?]; [lia|done].
  - rewrite Hes3. apply elem_of_app. left. apply elem_of_app. right.
    by apply list_elem_of_singleton.
Qed.

Lemma finalize_unload_finalize_witness :
  let s := (__init__ example_config (Some [3; 1])
              (new_object example_config example_world)).2 in
  ∃ s3 h2, (finalize;; (unload;; finalize)) s = (Ok tt, s3) ∧
           live_contexts (world s3) = {[h2]} ∪ ∅.
Proof.
  intros s.
  destruct (finalize_unload_finalize s [(0%nat, 0, 24); (1%nat, 24, 32)]
              [(0%nat, 0, 3072); (1%nat, 3072, 4096)]
              [(0%nat, 0, 24000); (1%nat, 24000, 32000)])
    as (s3 & h1 & h2 & Hrun & _ & _ & Hl & _);
    [reflexivity|reflexivity|reflexivity|by left| | |].
  { intros d Hd.
    assert (d = 0%nat ∨ d = 1%nat) as [-> | ->]; [|by eexists..].
    destruct Hd as [Hd|[Hd|Hd]]; apply list_elem_of_In in Hd; simpl in Hd;
      intuition. }
  { intros h Hh. by apply elem_of_empty in Hh. }
  exists s3, h2. split; [exact Hrun|].
  rewrite Hl. f_equal.
Defined.

(** ** Gathering and staging *)

(** X12: when the engine accepts the call and the staging buffer is large
    enough, [gather] allocates nothing: it returns a view of the pinned
    buffer's storage of shape [(rows, total * dim)], where [rows] is the
    first dimension of the first input and [total] the end of the table's
    last entry; the one thing it issues is the native gather. *)
Theorem gather_returns_pinned_view s inputs bt dim split last_entry first
    rows pinned size :
  get_split bt s = (Ok (Some split), s) →
  last split = Some last_entry →
  inputs !! 0%nat = Some first →
  shape first !! 0%nat = Some rows →
  pinned_temp (self s) = Some pinned →
  shape pinned = [size] →
  ext_c_raises (world s)
    (TpGather (ext_tp_context (self s)) inputs bt none_tensor dim) = None →
  0 ≤ rows → 0 ≤ last_entry.2 * dim → last_entry.2 * dim * rows ≤ size →
  gather inputs bt dim s
  = (Ok {| data_ptr := data_ptr pinned; tensor_device := tensor_device pinned;
           shape := [rows; last_entry.2 * dim]; is_pinned := is_pinned pinned |},
     {| self := self s;
        world := log (TpGather (ext_tp_context (self s)) inputs bt
                        none_tensor dim) (world s) |}).
Proof.
  intros Hsplit Hlast Hfirst Hrows Hpinned Hshape Hok Hr Hc Hfit.
  destruct last_entry as [[d a] total]. simpl in *.
  unfold gather.
  rewrite (bind_Ok _ _ _ _ _ Hsplit).
  erewrite bind_Ok by done. cbn [self world compose].
  rewrite bind_run, ext_c_call_run, Hok.
  set (s' := {| self := self s; world := log _ (world s) |}).
  rewrite (bind_Ok _ _ s' split s') by done.
  rewrite (bind_Ok _ _ s' (d, a, total) s')
    by (unfold lift, getitem_last; by rewrite Hlast).
  cbv beta iota.
  rewrite (bind_Ok _ _ s' first s')
    by (unfold lift, getitem; by rewrite Hfirst).
  rewrite (bind_Ok _ _ s' rows s')
    by (unfold lift, getitem; by rewrite Hrows).
  rewrite (bind_Ok _ _ s' (Some pinned) s')
    by (unfold gets, compose, s'; cbn [self]; by rewrite Hpinned).
  rewrite (bind_Ok _ _ s' pinned s') by done.
  erewrite (bind_Ok _ _ s' _ s').
  2: { unfold lift, slice_to. rewrite Hshape.
       rewrite decide_False by nia. by rewrite Z.min_l by lia. }
  unfold lift, view, numel. cbn [shape foldr data_ptr tensor_device is_pinned].
  rewrite decide_True; [done|]. split_and!; try done. ring.
Qed.

Lemma gather_returns_pinned_view_witness :
  let s := ((__init__ example_config (Some [3; 1]);; finalize)
              (new_object example_config example_world)).2 in
  let x := {| data_ptr := 0; tensor_device := Cuda 0; shape := [2; 24000];
              is_pinned := false |} in
  ∃ t s', gather [x; x] BROADCAST_VC 1 s = (Ok t, s') ∧
          shape t = [2; 32000] ∧ data_ptr t = 1%nat.
Proof.
  intros s x.
  eexists _, _. split.
  - apply (gather_returns_pinned_view s [x; x] BROADCAST_VC 1
             [(0%nat, 0, 24000); (1%nat, 24000, 32000)] (1%nat, 24000, 32000)
             x 2 {| data_ptr := 1; tensor_device := Cpu; shape := [65536000];
                    is_pinned := true |} 65536000);
      try reflexivity; simpl; lia.
  - split; reflexivity.
Defined.

(** X13: [gather] inspects its arguments only after the native call.  With
    an engine that accepts the call, an empty table or an empty input list
    makes it raise [IndexError], and a context without a pinned buffer makes
    it raise [TypeError]; in each case the native gather has been issued. *)
Theorem gather_checks_after_engine s inputs bt dim split :
  get_split bt s = (Ok (Some split), s) →
  ext_c_raises (world s)
    (TpGather (ext_tp_context (self s)) inputs bt none_tensor dim) = None →
  let s' := {| self := self s;
               world := log (TpGather (ext_tp_context (self s)) inputs bt
                               none_tensor dim) (world s) |} in
  (split = [] → gather inputs bt dim s = (Raise IndexError, s')) ∧
  (split ≠ [] → inputs = [] → gather inputs bt dim s = (Raise IndexError, s')) ∧
  (split ≠ [] → (∃ first rows, inputs !! 0%nat = Some first ∧
                               shape first !! 0%nat = Some rows) →
   pinned_temp (self s) = None →
   gather inputs bt dim s = (Raise TypeError, s')).
Proof.
  intros Hsplit Hok s'.
  assert (gather inputs bt dim s
            = (split ← lift (not_none (Some split));
               '(_, _, total) ← lift (getitem_last split);
               first ← lift (getitem inputs 0);
               rows ← lift (getitem (shape first) 0);
               pinned ← gets (pinned_temp ∘ self);
               pinned ← lift (not_none pinned);
               pt ← lift (slice_to (total * dim * rows) pinned);
               lift (view rows (total * dim) pt)) s') as Hrun.
  { unfold gather.
    rewrite (bind_Ok _ _ _ _ _ Hsplit).
    erewrite bind_Ok by done. cbn [self world compose].
    by rewrite bind_run, ext_c_call_run, Hok. }
  split_and!.
  - intros ->. by rewrite Hrun.
  - intros Hne ->. rewrite Hrun.
    destruct (last split) as [[[d a] total]|] eqn:Hl;
      [|by apply last_None in Hl].
    rewrite (bind_Ok _ _ s' split s') by done.
    rewrite (bind_Ok _ _ s' (d, a, total) s')
      by (unfold lift, getitem_last; by rewrite Hl).
    cbv beta iota. by apply bind_Raise.
  - intros Hne (first & rows & Hf & Hr) Hp. rewrite Hrun.
    destruct (last split) as [[[d a] total]|] eqn:Hl;
      [|by apply last_None in Hl].
    rewrite (bind_Ok _ _ s' split s') by done.
    rewrite (bind_Ok _ _ s' (d, a, total) s')
      by (unfold lift, getitem_last; by rewrite Hl).
    cbv beta iota.
    rewrite (bind_Ok _ _ s' first s')
      by (unfold lift, getitem; by rewrite Hf).
    rewrite (bind_Ok _ _ s' rows s')
      by (unfold lift, getitem; by rewrite Hr).
    rewrite (bind_Ok _ _ s' None s')
      by (unfold gets, compose, s'; cbn [self]; by rewrite Hp).
    by apply bind_Raise.
Qed.

Lemma gather_checks_after_engine_witness :
  let s := (__init__ example_config (Some [3; 1])
              (new_object example_config example_world)).2 in
  (gather [] BROADCAST_KV 1 s).1 = Raise IndexError ∧
  issued (world (gather [] BROADCAST_KV 1 s).2)
  = [TpGather None [] BROADCAST_KV none_tensor 1].
Proof.
  intros s.
  destruct (gather_checks_after_engine s [] BROADCAST_KV 1
              [(0%nat, 0, 24); (1%nat, 24, 32)]) as (_ & Hempty & _);
    [reflexivity..|].
  rewrite Hempty; [by split|done|done].
Defined.

(** X14: [copy_pinned] allocates nothing.  For an input that fits the
    pinned buffer it returns a view of the buffer's storage with the
    input's shape, and the one thing it issues is the copy of the input
    into that view; for an input that does not fit it raises
    [RuntimeError] before anything is copied.  The object is unchanged in
    both cases. *)
Theorem copy_pinned_view s inputs pinned size :
  pinned_temp (self s) = Some pinned →
  shape pinned = [size] →
  0 ≤ numel inputs →
  let pt := {| data_ptr := data_ptr pinned;
               tensor_device := tensor_device pinned;
               shape := shape inputs; is_pinned := is_pinned pinned |} in
  (numel inputs ≤ size →
   copy_pinned inputs s
   = (Ok pt, {| self := self s;
                world := log (CopyInto pt inputs) (world s) |})) ∧
  (size < numel inputs → copy_pinned inputs s = (Raise RuntimeError, s)).
Proof.
  intros Hpinned Hshape Hn pt.
  assert (copy_pinned inputs s
          = if decide (Z.min (numel inputs) size = numel inputs)
            then (Ok pt, {| self := self s;
                            world := log (CopyInto pt inputs) (world s) |})
            else (Raise RuntimeError, s)) as Hrun.
  { unfold copy_pinned.
    rewrite (bind_Ok _ _ s (Some pinned) s)
      by (unfold gets, compose; by rewrite Hpinned).
    rewrite (bind_Ok _ _ s pinned s) by done.
    erewrite (bind_Ok _ _ s _ s).
    2: { unfold lift, slice_to. rewrite Hshape. by rewrite decide_False by lia. }
    cbn [data_ptr tensor_device is_pinned]. fold pt.
    repeat case_decide; try done; exfalso;
      unfold numel in *; simpl in *; lia. }
  split; intros Hfit; rewrite Hrun.
  - rewrite decide_True; [done|lia].
  - rewrite decide_False; [done|lia].
Qed.

Lemma copy_pinned_view_witness :
  let s := ((__init__ example_config (Some [3; 1]);; finalize)
              (new_object example_config example_world)).2 in
  let x := {| data_ptr := 0; tensor_device := Cuda 0; shape := [2; 4096];
              is_pinned := false |} in
  ∃ t s', copy_pinned x s = (Ok t, s') ∧ shape t = [2; 4096] ∧
          data_ptr t = 1%nat ∧ is_pinned t = true ∧
          last (issued (world s')) = Some (CopyInto t x).
Proof.
  intros s x.
  destruct (copy_pinned_view s x
              {| data_ptr := 1; tensor_device := Cpu; shape := [65536000];
                 is_pinned := true |} 65536000) as [Hfit _];
    [reflexivity|reflexivity|by vm_compute|].
  eexists _, _. split; [apply Hfit; by vm_compute|].
  split_and!; reflexivity.
Defined.

(** ** Partial effects of the per-device loops *)

Lemma for_each_app_Raise {A B} (f : A → M B) l1 l2 : ∀ s ys s1 e s2,
  for_each f l1 s = (Ok ys, s1) →
  for_each f l2 s1 = (Raise e, s2) →
  for_each f (l1 ++ l2) s = (Raise e, s2).
Proof.
  induction l1 as [|x l1 IH]; intros s ys s1 e s2 H1 H2.
  - by injection H1 as _ <-.
  - simpl app. rewrite for_each_cons in *. rewrite bind_run in *.
    destruct (f x s) as [[y|e'] s0]; [|done].
    rewrite bind_run in *.
    destruct (for_each f l1 s0) as [[ys'|e'] s0'] eqn:Hl1; [|done].
    injection H1 as _ <-. by rewrite (IH _ _ _ _ _ Hl1 H2).
Qed.

(** X15: [wait_streams] stops at the first device of the table that has no
    stream in the registry: it raises [KeyError] after synchronizing the
    streams of the entries before it, and the final global synchronization
    is not issued. *)
Theorem wait_streams_missing_stream s bt pre d a e post :
  get_split bt s = (Ok (Some (pre ++ (d, a, e) :: post)), s) →
  Forall (λ d', is_Some (global_streams (world s) !! d')) (devices_of pre) →
  global_streams (world s) !! d = None →
  wait_streams bt s
  = (Raise KeyError,
     {| self := self s;
        world := advance 0 (StreamSynchronize <$> devices_of pre) (world s) |}).
Proof.
  intros Hsplit Hpre Hd.
  destruct (wait_loop (global_streams (world s)) pre s Hpre) as (us & Hloop).
  unfold wait_streams.
  rewrite (bind_Ok _ _ _ _ _ Hsplit).
  rewrite (bind_Ok _ _ s (pre ++ (d, a, e) :: post) s) by done.
  rewrite (bind_Ok _ _ s (global_streams (world s)) s) by done.
  apply bind_Raise.
  eapply for_each_app_Raise; [exact Hloop|].
  rewrite for_each_cons. apply bind_Raise. by rewrite Hd.
Qed.

Lemma wait_streams_missing_stream_witness :
  let w := {| get_all_gpu_memory := ∅; global_streams := {[ 0%nat := 100 ]};
              next_ptr := 1; next_context := 0; live_contexts := ∅;
              ext_c_raises := λ _, None; issued := [] |} in
  let s := (__init__ example_config (Some [3; 1])
              (new_object example_config w)).2 in
  (wait_streams BROADCAST_KV s).1 = Raise KeyError ∧
  issued (world (wait_streams BROADCAST_KV s).2) = [StreamSynchronize 0].
Proof.
  intros w s.
  rewrite (wait_streams_missing_stream s BROADCAST_KV [(0%nat, 0, 24)]
             1%nat 24 32 []); [by split|reflexivity| |reflexivity].
  apply Forall_cons. split; [by eexists|]. apply Forall_nil. exact I.
Defined.

Lemma add_residual_stops s target source bt dim pre dev a b post e :
  get_split bt s = (Ok (Some (pre ++ (dev, a, b) :: post)), s) →
  (length pre ≤ length target)%nat →
  (length pre ≤ length source)%nat →
  Forall (residual_fits dim) (zip pre (zip target source)) →
  (t ← getitem target (length pre);
   src ← getitem source (length pre);
   piece ← slice_columns (a * dim) (b * dim) src;
   add_ t piece) = Raise e →
  add_residual target source bt dim s
  = (Raise e,
     {| self := self s;
        world := advance 0 (residual_events target source dim pre
                            ++ [SetStream dev]) (world s) |}).
Proof.
  intros Hsplit Ht Hs Hfit Hstep.
  destruct (residual_loop target source dim pre pair 0 s) as (us & Hloop);
    [done|simpl; lia..|done|].
  unfold add_residual.
  rewrite (bind_Ok _ _ _ _ _ Hsplit).
  rewrite (bind_Ok _ _ s (pre ++ (dev, a, b) :: post) s) by done.
  apply bind_Raise. rewrite imap_app.
  eapply for_each_app_Raise; [exact Hloop|].
  rewrite imap_cons, for_each_cons. apply bind_Raise.
  unfold compose. rewrite Nat.add_0_r.
  erewrite bind_Ok by done. cbn [self world].
  rewrite <- (advance_0 (world s)) at 2.
  rewrite !advance_advance, log_advance. simpl drop.
  rewrite app_nil_l, Nat.add_0_r.
  unfold mbind, res_bind in Hstep.
  destruct (getitem target (length pre)) as [t|] eqn:Ht';
    [|injection Hstep as <-; by apply bind_Raise].
  rewrite (bind_Ok _ _ _ t _) by done.
  destruct (getitem source (length pre)) as [src|] eqn:Hs';
    [|injection Hstep as <-; by apply bind_Raise].
  rewrite (bind_Ok _ _ _ src _) by done.
  destruct (slice_columns (a * dim) (b * dim) src) as [piece|] eqn:Hp;
    [|injection Hstep as <-; by apply bind_Raise].
  rewrite (bind_Ok _ _ _ piece _) by done.
  apply bind_Raise. unfold lift. by rewrite Hstep.
Qed.

(** X16: [add_residual] stops at the first table entry for which the target
    or the source list has no tensor.  When the additions for the entries
    before it succeed, it raises [IndexError] after those additions have
    been issued and the stream of the entry's own device has been
    selected. *)
Theorem add_residual_short_list s target source bt dim pre dev a b post :
  get_split bt s = (Ok (Some (pre ++ (dev, a, b) :: post)), s) →
  length pre = (length target `min` length source)%nat →
  Forall (residual_fits dim) (zip pre (zip target source)) →
  add_residual target source bt dim s
  = (Raise IndexError,
     {| self := self s;
        world := advance 0 (residual_events target source dim pre
                            ++ [SetStream dev]) (world s) |}).
Proof.
  intros Hsplit Hlen Hfit.
  apply (add_residual_stops s target source bt dim pre dev a b post);
    [done|lia|lia|done|].
  unfold mbind, res_bind, getitem.
  destruct (target !! length pre) as [t|] eqn:Ht; [|done].
  rewrite (lookup_ge_None_2 source (length pre)); [done|].
  apply lookup_lt_Some in Ht. lia.
Qed.

Lemma add_residual_short_list_witness :
  let s := (__init__ example_config (Some [3; 1])
              (new_object example_config example_world)).2 in
  let t0 := {| data_ptr := 10; tensor_device := Cuda 0; shape := [1; 3072];
               is_pinned := false |} in
  let x0 := {| data_ptr := 11; tensor_device := Cuda 0; shape := [1; 4096];
               is_pinned := false |} in
  let x1 := {| data_ptr := 12; tensor_device := Cuda 1; shape := [1; 4096];
               is_pinned := false |} in
  (add_residual [t0] [x0; x1] BROADCAST_RS 1 s).1 = Raise IndexError ∧
  issued (world (add_residual [t0] [x0; x1] BROADCAST_RS 1 s).2)
  = [SetStream 0; AddInPlace t0 x0 0 3072; SetStream 1].
Proof.
  intros s t0 x0 x1.
  rewrite (add_residual_short_list s [t0] [x0; x1] BROADCAST_RS 1
             [(0%nat, 0, 3072)] 1%nat 3072 4096 []);
    [by split|reflexivity|reflexivity|].
  apply Forall_cons. split; [|apply Forall_nil; exact I].
  eexists. split; reflexivity.
Defined.

(** X19: [add_residual] checks each addition before it issues it.  At the
    first table entry whose source has no second dimension to slice it
    raises [IndexError], and at the first entry whose slice is on another
    device than the target or does not broadcast to the target's shape it
    raises [RuntimeError]; the additions before that entry have been
    issued, the stream of the entry's device has been selected, and the
    failing addition is not issued. *)
Theorem add_residual_bad_tensor s target source bt dim pre dev a b post t src :
  get_split bt s = (Ok (Some (pre ++ (dev, a, b) :: post)), s) →
  Forall (residual_fits dim) (zip pre (zip target source)) →
  target !! length pre = Some t →
  source !! length pre = Some src →
  let s' := {| self := self s;
               world := advance 0 (residual_events target source dim pre
                                   ++ [SetStream dev]) (world s) |} in
  ((∀ d0 d1 rest, shape src ≠ d0 :: d1 :: rest) →
   add_residual target source bt dim s = (Raise IndexError, s')) ∧
  (∀ piece, slice_columns (a * dim) (b * dim) src = Ok piece →
     tensor_device t ≠ tensor_device piece ∨
     expands_to (reverse (shape piece)) (reverse (shape t)) = false →
     add_residual target source bt dim s = (Raise RuntimeError, s')).
Proof.
  intros Hsplit Hfit Ht Hsrc s'.
  pose proof (lookup_lt_Some _ _ _ Ht). pose proof (lookup_lt_Some _ _ _ Hsrc).
  split.
  - intros Hshape. apply (add_residual_stops s target source bt dim pre dev a b post);
    [done|lia|lia|done|].
    unfold mbind, res_bind, getitem. rewrite Ht, Hsrc. unfold slice_columns.
    destruct (shape src) as [|d0 [|d1 rest]]; try done.
    by destruct (Hshape d0 d1 rest).
  - intros piece Hpiece Hbad. apply (add_residual_stops s target source bt dim pre dev a b post);
    [done|lia|lia|done|].
    unfold mbind, res_bind, getitem. rewrite Ht, Hsrc, Hpiece. unfold add_.
    destruct Hbad as [Hdev|Hshape].
    + by rewrite decide_False.
    + rewrite Hshape. by case_decide.
Qed.

Lemma add_residual_bad_tensor_witness :
  let s := (__init__ example_config (Some [3; 1])
              (new_object example_config example_world)).2 in
  let x := {| data_ptr := 0; tensor_device := Cuda 0; shape := [1; 4096];
              is_pinned := false |} in
  (add_residual [x; x] [x; x] BROADCAST_RS 1 s).1 = Raise RuntimeError ∧
  issued (world (add_residual [x; x] [x; x] BROADCAST_RS 1 s).2)
  = [SetStream 0].
Proof.
  intros s x.
  destruct (add_residual_bad_tensor s [x; x] [x; x] BROADCAST_RS 1 []
              0%nat 0 3072 [(1%nat, 3072, 4096)] x x) as [_ Hbad];
    [reflexivity|apply Forall_nil; exact I|reflexivity|reflexivity|].
  rewrite (Hbad {| data_ptr := 0; tensor_device := Cuda 0;
                   shape := [1; 3072]; is_pinned := false |});
    [by split|reflexivity|by right].
Defined.

(** ** Failures of the native engine *)

(** X17: what the native engine raises is surfaced unchanged.  When the
    engine refuses the call, [broadcast] and [gather] raise the engine's
    exception; the object is left as it was, the outputs [broadcast] had
    allocated are dropped, and the refused call is the last thing issued. *)
Theorem engine_failure_is_surfaced s bt split exn :
  get_split bt s = (Ok (Some split), s) →
  (∀ e, (∃ input outs dim,
           e = TpBroadcast (ext_tp_context (self s)) input bt outs dim) ∨
        (∃ inputs dim,
           e = TpGather (ext_tp_context (self s)) inputs bt none_tensor dim) →
        ext_c_raises (world s) e = Some exn) →
  (∀ input dim, ∃ s' outs,
     broadcast input bt dim s = (Raise exn, s') ∧
     self s' = self s ∧
     length outs = length split ∧
     last (issued (world s'))
     = Some (TpBroadcast (ext_tp_context (self s)) input bt outs dim)) ∧
  (∀ inputs dim, ∃ s',
     gather inputs bt dim s = (Raise exn, s') ∧
     self s' = self s ∧
     issued (world s')
     = issued (world s)
       ++ [TpGather (ext_tp_context (self s)) inputs bt none_tensor dim]).
Proof.
  intros Hsplit Hexn. split.
  - intros input dim.
    destruct (broadcast_run s input bt dim split Hsplit)
      as (ts & k & es & Hrun & _ & Hts & _).
    cbv zeta in Hrun. rewrite Hexn in Hrun by (left; by eexists _, _, _).
    eexists _, ts. split; [exact Hrun|]. simpl. split_and!; try done.
    + symmetry. by eapply Forall2_length.
    + by rewrite app_assoc, last_snoc.
  - intros inputs dim.
    destruct (gather_run s inputs bt dim (Some split) Hsplit)
      as (r & Hrun & Hraise & _).
    rewrite (Hraise exn) in Hrun by (apply Hexn; right; by eexists _, _).
    eexists. split; [exact Hrun|]. by split.
Qed.

Lemma engine_failure_is_surfaced_witness :
  let w := {| get_all_gpu_memory := ∅;
              global_streams := {[ 0%nat := 100; 1%nat := 101 ]};
              next_ptr := 1; next_context := 0; live_contexts := ∅;
              ext_c_raises := λ _, Some (NativeError 2); issued := [] |} in
  let s := (__init__ example_config (Some [3; 1])
              (new_object example_config w)).2 in
  ∃ s', gather [] BROADCAST_KV 1 s = (Raise (NativeError 2), s') ∧
        self s' = self s.
Proof.
  intros w s.
  destruct (engine_failure_is_surfaced s BROADCAST_KV
              [(0%nat, 0, 24); (1%nat, 24, 32)] (NativeError 2))
    as (_ & Hgather); [reflexivity|reflexivity|].
  destruct (Hgather [] 1) as (s' & Hrun & Hself & _).
  by exists s'.
Defined.

(** ** How much [finalize] allocates *)

Section finalize_count.

Lemma device_temp_loop_count (devices : list nat) pinned : ∀ l s,
  ∃ ts es,
    for_each (λ idx : nat,
        if decide (idx ∈ devices) then torch_empty_like pinned (Cuda idx)
        else mret none_tensor) l s
    = (Ok ts,
       {| self := self s;
          world := advance (length (filter (λ idx, idx ∈ devices) l)) es
                     (world s) |}).
Proof.
  induction l as [|idx l IH]; intros s.
  - exists [], []. rewrite advance_0. by destruct s.
  - rewrite for_each_cons, filter_cons. case_decide as Hidx.
    + unfold torch_empty_like.
      pose proof (torch_empty_run (shape pinned) (Cuda idx) false s) as Halloc.
      cbv zeta in Halloc.
      destruct (IH {| self := self s;
                      world := advance 1 [TorchEmpty {| data_ptr := next_ptr (world s);
                          tensor_device := Cuda idx; shape := shape pinned;
                          is_pinned := false |}] (world s) |})
        as (ts & es & Hrun).
      eexists (_ :: ts), (_ :: es).
      rewrite (bind_Ok _ _ _ _ _ Halloc), (bind_Ok _ _ _ _ _ Hrun).
      cbn [self world]. by rewrite advance_advance.
    + destruct (IH s) as (ts & es & Hrun).
      exists (none_tensor :: ts), es.
      rewrite (bind_Ok _ _ s none_tensor s) by done.
      by rewrite (bind_Ok _ _ _ _ _ Hrun).
Qed.

Lemma filter_participants (devs : list nat) m :
  NoDup devs → (∀ d, d ∈ devs → (d ≤ m)%nat) →
  length (filter (λ idx, idx ∈ devs) (seq 0 (m + 1))) = length devs.
Proof.
  intros Hnd Hle. apply Permutation_length, NoDup_Permutation.
  - apply NoDup_filter, NoDup_seq.
  - done.
  - intros d. rewrite list_elem_of_filter, elem_of_seq. split; [tauto|].
    intros Hd. split; [done|]. specialize (Hle d Hd). lia.
Qed.

End finalize_count.

(** X18: a successful [finalize] takes one storage for the pinned buffer
    and one for each participating device, and none for the sentinel slots:
    the storage counter advances by one plus the number of devices of
    [all_devices()]. *)
Theorem finalize_allocations s kv id vc :
  kv_split (self s) = Some kv → id_split (self s) = Some id →
  vc_split (self s) = Some vc →
  kv ≠ [] ∨ id ≠ [] ∨ vc ≠ [] →
  (∀ d, d ∈ devices_of kv ∨ d ∈ devices_of id ∨ d ∈ devices_of vc →
        is_Some (global_streams (world s) !! d)) →
  ∃ s' devs,
    finalize s = (Ok tt, s') ∧
    all_devices (self s) = Ok devs ∧
    next_ptr (world s') = (next_ptr (world s) + 1 + length devs)%nat.
Proof.
  intros Hkv Hid Hvc Hne Hreg.
  destruct (participants s kv id vc Hkv Hid Hvc Hne Hreg)
    as (devs & Hdevs & Hdne & Hregd & Hin).
  destruct (python_max_spec devs Hdne) as (m & Hm & _ & Hmax).
  assert (NoDup devs) as Hnd.
  { pose proof (all_devices_unfold (self s) kv id vc Hkv Hid Hvc) as E.
    rewrite Hdevs in E. injection E as ->. unfold sorted.
    rewrite merge_sort_Permutation. apply NoDup_elements. }
  set (pinned := {| data_ptr := next_ptr (world s); tensor_device := Cpu;
                    shape := [staging_size (model_config (self s))];
                    is_pinned := true |}).
  set (s1 := {| self := set_pinned_temp pinned (self s);
                world := advance 1 [TorchEmpty pinned] (world s) |}).
  destruct (device_temp_loop_count devs pinned (seq 0 (m + 1)) s1)
    as (ts & es & Hloop).
  rewrite (filter_participants devs m Hnd Hmax) in Hloop.
  set (s2 := {| self := set_device_temp ts (self s1);
                world := advance (length devs) es (world s1) |}).
  destruct (streams_loop (global_streams (world s2)) devs s2 Hregd)
    as (strms & Hstr & _).
  eexists _, devs. split; [|split; [done|]].
  - unfold finalize.
    rewrite (bind_Ok _ _ s (model_config (self s)) s) by done.
    erewrite bind_Ok; [|apply torch_empty_run]. cbv zeta.
    fold (staging_size (model_config (self s))). fold pinned.
    rewrite (bind_Ok _ _ _ tt s1) by done.
    rewrite (bind_Ok _ _ s1 (self s1) s1) by done.
    rewrite (bind_Ok _ _ s1 devs s1) by (unfold lift; by rewrite <- Hdevs).
    rewrite (bind_Ok _ _ s1 m s1) by (unfold lift; by rewrite <- Hm).
    rewrite (bind_Ok _ _ _ _ _ Hloop).
    rewrite (bind_Ok _ _ _ tt s2) by done.
    rewrite (bind_Ok _ _ s2 (self s2) s2) by done.
    rewrite (bind_Ok _ _ s2 devs s2) by (unfold lift; by rewrite <- Hdevs).
    rewrite (bind_Ok _ _ s2 (global_streams (world s2)) s2) by done.
    rewrite (bind_Ok _ _ _ _ _ Hstr).
    unfold make_tp_context. unfold_M. reflexivity.
  - simpl. lia.
Qed.

Lemma finalize_allocations_witness :
  let s := (__init__ narrow_config (Some [2; 1])
              (new_object narrow_config example_world)).2 in
  ∃ s', finalize s = (Ok tt, s') ∧ next_ptr (world s') = 3%nat.
Proof.
  intros s.
  destruct (finalize_allocations s [(0%nat, 0, 1)] [(0%nat, 0, 128)]
              [(0%nat, 0, 32)])
    as (s' & devs & Hrun & Hdevs & Hptr);
    [reflexivity|reflexivity|reflexivity|by left| |].
  { intros d Hd. exists 100.
    assert (d = 0%nat) as ->; [|reflexivity].
    destruct Hd as [Hd|[Hd|Hd]]; apply list_elem_of_In in Hd; simpl in Hd;
      intuition. }
  exists s'. split; [exact Hrun|]. rewrite Hptr.
  vm_compute in Hdevs. by injection Hdevs as <-.
Defined.
